(** * Resource Hosting coordinator (IoTivity notification manager)

    A shallow embedding of
    [service/notification-manager/NotificationManager/src/ResourceHosting.cpp]
    and the properties of its registry of hosting (mirror) objects.

    The C++ member functions become computations in a small monad that
    threads the process state and distinguishes a normal return, a thrown
    C++ exception and undefined behaviour (a null [shared_ptr] that is
    dereferenced). *)

From Stdlib Require Import ZArith String Ascii Lia.
From stdpp Require Import base option list relations gmap strings.

Local Open Scope Z_scope.

(* ================================================================== *)
(** ** Exceptions and the outcome of a call *)

(** The exception classes the file names, [std::out_of_range] (thrown by
    [std::string::compare]) and any other class a collaborator throws. *)
Inductive exception : Type :=
  | PlatformException (code : Z)
  | InvalidParameterException (what : string)
  | out_of_range
  | other_exception (what : string).

Inductive outcome (A : Type) : Type :=
  | Normal (a : A)
  | Throw (e : exception)
  | Undefined.
Arguments Normal {A} a.
Arguments Throw {A} e.
Arguments Undefined {A}.

(* ================================================================== *)
(** ** [std::string] operations used by the coordinator *)

Module StdString.

(** [size_t] is an unsigned 64-bit integer; subtraction wraps around. *)
Definition SIZE_BITS : Z := 64.
Definition size_t_sub (a b : Z) : Z := (a - b) mod 2 ^ SIZE_BITS.

Definition size (s : string) : Z := Z.of_nat (String.length s).

(** The sign of [traits_type::compare] followed by the length
    comparison, as an [int]. *)
Definition int_of_comparison (c : comparison) : Z :=
  match c with Lt => -1 | Eq => 0 | Gt => 1 end.

(** [s.compare(pos1, count1, t)] for a null-terminated [t]: throws
    [std::out_of_range] when [pos1 > s.size()], otherwise compares
    the substring [[pos1, pos1 + min(count1, size - pos1))] with [t]. *)
Definition compare (s : string) (pos1 count1 : Z) (t : string) : outcome Z :=
  if size s <? pos1 then Throw out_of_range
  else
    let rlen := Z.min count1 (size s - pos1) in
    Normal (int_of_comparison
              (String.compare (substring (Z.to_nat pos1) (Z.to_nat rlen) s) t)).

(** [s] ends with [t]: the notion the admission filter is meant to decide. *)
Definition ends_with (s t : string) : Prop := ∃ p : string, s = (p +:+ t)%string.

End StdString.

(* ================================================================== *)
(** ** Data model *)

Inductive OCConnectivityType : Type := CT_DEFAULT.

(** [OCStackResult] is declared in the C stack's [octypes.h]; the
    constructors are the enumerators [presenceHandler] switches over, and
    [OC_STACK_UNDEFINED v] stands for any other integer value of the
    enumeration type. *)
Inductive OCStackResult : Type :=
  | OC_STACK_OK
  | OC_STACK_CONTINUE
  | OC_STACK_RESOURCE_CREATED
  | OC_STACK_RESOURCE_DELETED
  | OC_STACK_COMM_ERROR
  | OC_STACK_TIMEOUT
  | OC_STACK_PRESENCE_STOPPED
  | OC_STACK_PRESENCE_TIMEOUT
  | OC_STACK_PRESENCE_DO_NOT_HANDLE
  | OC_STACK_ERROR
  | OC_STACK_INVALID_URI
  | OC_STACK_INVALID_QUERY
  | OC_STACK_INVALID_IP
  | OC_STACK_INVALID_PORT
  | OC_STACK_INVALID_CALLBACK
  | OC_STACK_INVALID_METHOD
  | OC_STACK_INVALID_PARAM
  | OC_STACK_INVALID_OBSERVE_PARAM
  | OC_STACK_NO_MEMORY
  | OC_STACK_ADAPTER_NOT_ENABLED
  | OC_STACK_NOTIMPL
  | OC_STACK_NO_RESOURCE
  | OC_STACK_RESOURCE_ERROR
  | OC_STACK_SLOW_RESOURCE
  | OC_STACK_DUPLICATE_REQUEST
  | OC_STACK_NO_OBSERVERS
  | OC_STACK_OBSERVER_NOT_FOUND
  | OC_STACK_INVALID_OPTION
  | OC_STACK_VIRTUAL_DO_NOT_HANDLE
  | OC_STACK_MALFORMED_RESPONSE
  | OC_STACK_PERSISTENT_BUFFER_REQUIRED
  | OC_STACK_INVALID_REQUEST_HANDLE
  | OC_STACK_INVALID_DEVICE_INFO
  | OC_STACK_INVALID_JSON
  | OC_STACK_UNDEFINED (v : Z).

(** The remote resource descriptor ([RCSRemoteResourceObject]) as the
    coordinator reads it: [getAddress()], [getUri()] and the instance
    identifier [getID()] that [isSameRemoteResource] leaves out. *)
Record RemoteObject : Type := mkRemoteObject {
  getAddress : string;
  getUri : string;
  getID : Z
}.

(** [RemoteObjectPtr] is a [shared_ptr]; [None] is [nullptr]. *)
Definition RemoteObjectPtr : Type := option RemoteObject.

(** Addresses of [HostingObject] allocations; [HostingObjectPtr] is a
    [shared_ptr<HostingObject>], compared by address, [None] is [nullptr]. *)
Definition loc : Type := nat.
Definition HostingObjectPtr : Type := option loc.

(** The callbacks [std::bind] builds.  The termination callback carries
    the pointer it was bound with. *)
Inductive DestroyedCallback : Type :=
  | bind_destroyedHostingObject (destroyedPtr : HostingObjectPtr).

Inductive PresenceCallback : Type := bind_presenceHandler.
Inductive DiscoveryCallback : Type := bind_discoverHandler.

(** Modelled from the spec: the mirror object ([HostingObject], class
    outside the source tree) wraps one descriptor and a bound termination
    callback. *)
Record HostingObject : Type := mkHostingObject {
  remoteObject : RemoteObjectPtr;
  pDestroyCB : option DestroyedCallback
}.

(** Modelled from the spec: the presence subscription handle
    ([PresenceSubscriber], class outside the source tree), Subscribed or
    Unsubscribed. *)
Record PresenceSubscriber : Type := mkPresenceSubscriber {
  isSubscribing : bool
}.

(** Calls made to the collaborators (presence channel and discovery
    service), in the order they are issued. *)
Inductive PlatformCall : Type :=
  | SubscribePresence (host : string) (ct : OCConnectivityType) (cb : option PresenceCallback)
  | UnsubscribePresence
  | DiscoverResource (host uri : string) (ct : OCConnectivityType) (cb : option DiscoveryCallback).

Inductive DiscoveryManager : Type := DiscoveryManager_getInstance.

(** The coordinator object and the part of the process it acts on: the
    heap of hosting objects, the calls issued so far and [std::cout]. *)
Record ResourceHosting : Type := mkResourceHosting {
  presenceHandle : PresenceSubscriber;
  hostingObjectList : list HostingObjectPtr;
  discoveryManager : option DiscoveryManager;
  pPresenceCB : option PresenceCallback;
  pDiscoveryCB : option DiscoveryCallback
}.

Record World : Type := mkWorld {
  this : ResourceHosting;
  heap : gmap loc HostingObject;
  calls : list PlatformCall;
  cout : list string
}.

(* ================================================================== *)
(** ** The monad of member functions *)

Definition M (A : Type) : Type := World → outcome A * World.

#[global] Instance M_ret : MRet M := λ A a w, (Normal a, w).

#[global] Instance M_bind : MBind M := λ A B k m w,
  match m w with
  | (Normal a, w') => k a w'
  | (Throw e, w') => (Throw e, w')
  | (Undefined, w') => (Undefined, w')
  end.

Definition throw {A : Type} (e : exception) : M A := λ w, (Throw e, w).
Definition undefined {A : Type} : M A := λ w, (Undefined, w).

(** An outcome computed without touching the state. *)
Definition lift {A : Type} (o : outcome A) : M A := λ w, (o, w).

(** [try { body } catch ...]: [handler e] is the matching catch clause
    for [e], if there is one. *)
Definition try_catch {A : Type} (body : M A) (handler : exception → option (M A)) : M A :=
  λ w, match body w with
       | (Throw e, w') =>
           match handler e with
           | Some h => h w'
           | None => (Throw e, w')
           end
       | r => r
       end.

Definition gets {A : Type} (f : ResourceHosting → A) : M A := λ w, (Normal (f (this w)), w).

Definition modify_this (f : ResourceHosting → ResourceHosting) : M unit :=
  λ w, (Normal tt, mkWorld (f (this w)) (heap w) (calls w) (cout w)).

Definition set_presenceHandle (h : PresenceSubscriber) (c : ResourceHosting) : ResourceHosting :=
  mkResourceHosting h (hostingObjectList c) (discoveryManager c) (pPresenceCB c) (pDiscoveryCB c).

Definition set_hostingObjectList (l : list HostingObjectPtr) (c : ResourceHosting) : ResourceHosting :=
  mkResourceHosting (presenceHandle c) l (discoveryManager c) (pPresenceCB c) (pDiscoveryCB c).

Definition print (s : string) : M unit :=
  λ w, (Normal tt, mkWorld (this w) (heap w) (calls w) (cout w ++ [s])).

(** A range-based [for (auto it : l)]: the body receives a copy of each
    element. *)
Fixpoint for_each {A : Type} (l : list A) (body : A → M unit) : M unit :=
  match l with
  | [] => mret tt
  | it :: l' => body it ;; for_each l' body
  end.

(* ================================================================== *)
(** ** Collaborators *)

(** What the coordinator takes from outside this file: two constants of
    the C stack's headers, the default argument of [requestDiscovery]
    declared in [ResourceHosting.h], and whether a call to the presence
    channel or the discovery service throws, given the calls issued
    before it. *)
Class Environment : Type := {
  OC_MULTICAST_PREFIX : string;
  OC_MULTICAST_DISCOVERY_URI : string;
  requestDiscovery_default_address : string;
  subscribe_throws : list PlatformCall → string → OCConnectivityType → option exception;
  unsubscribe_throws : list PlatformCall → option exception;
  discover_throws : list PlatformCall → string → string → OCConnectivityType → option exception
}.

Section Collaborators.
Context {env : Environment}.

(** Modelled from the spec: the constructor
    [PresenceSubscriber(host, connectivityType, callback)] of the
    presence channel (its class is outside the source tree); it
    subscribes and returns a handle in state Subscribed, or throws. *)
Definition PresenceSubscriber_new (host : string) (ct : OCConnectivityType)
    (cb : option PresenceCallback) : M PresenceSubscriber :=
  λ w, let w' := mkWorld (this w) (heap w) (calls w ++ [SubscribePresence host ct cb]) (cout w) in
       match subscribe_throws (calls w) host ct with
       | Some e => (Throw e, w')
       | None => (Normal (mkPresenceSubscriber true), w')
       end.

(** Modelled from the spec: [PresenceSubscriber::unsubscribe()], which
    takes the handle back to Unsubscribed, or throws. *)
Definition PresenceSubscriber_unsubscribe : M unit :=
  λ w, let w' := mkWorld (this w) (heap w) (calls w ++ [UnsubscribePresence]) (cout w) in
       match unsubscribe_throws (calls w) with
       | Some e => (Throw e, w')
       | None => (Normal tt,
                  mkWorld (set_presenceHandle (mkPresenceSubscriber false) (this w'))
                          (heap w') (calls w') (cout w'))
       end.

(** Modelled from the spec: the discovery service's
    [DiscoveryManager::discoverResource(host, uri, type, cb)]; the query
    is issued, and the call may throw. *)
Definition DiscoveryManager_discoverResource (host uri : string)
    (type : OCConnectivityType) (cb : option DiscoveryCallback) : M unit :=
  λ w, let w' := mkWorld (this w) (heap w) (calls w ++ [DiscoverResource host uri type cb]) (cout w) in
       match discover_throws (calls w) host uri type with
       | Some e => (Throw e, w')
       | None => (Normal tt, w')
       end.

End Collaborators.

(** Modelled from the spec: [new HostingObject()], the default
    constructor of the mirror object (class outside the source tree): a
    fresh object bound to no descriptor and no callback yet. *)
Definition HostingObject_new : M loc :=
  λ w, let p := fresh (dom (heap w)) in
       (Normal p, mkWorld (this w) (<[p := mkHostingObject None None]> (heap w)) (calls w) (cout w)).

(** Modelled from the spec: [HostingObject::initializeHostingObject],
    which binds the object to exactly one descriptor and arms the
    termination callback. *)
Definition initializeHostingObject (it : HostingObjectPtr) (rResource : RemoteObjectPtr)
    (destroyCB : DestroyedCallback) : M unit :=
  λ w, match it with
       | None => (Undefined, w)
       | Some p =>
           match heap w !! p with
           | None => (Undefined, w)
           | Some _ =>
               (Normal tt,
                mkWorld (this w) (<[p := mkHostingObject rResource (Some destroyCB)]> (heap w))
                        (calls w) (cout w))
           end
       end.

(** Modelled from the spec: [HostingObject::getRemoteResource], which
    returns the bound descriptor.  Calling it through a null pointer is
    undefined. *)
Definition getRemoteResource (it : HostingObjectPtr) : M RemoteObjectPtr :=
  λ w, match it with
       | None => (Undefined, w)
       | Some p =>
           match heap w !! p with
           | None => (Undefined, w)
           | Some o => (Normal (remoteObject o), w)
           end
       end.

(** [ptr->member] on a descriptor pointer. *)
Definition deref (r : RemoteObjectPtr) : M RemoteObject :=
  match r with
  | Some o => mret o
  | None => undefined
  end.

(* ================================================================== *)
(** ** ResourceHosting.cpp *)

Definition HOSTING_TAG : string := "/hosting".
Definition HOSTING_TAG_SIZE : Z := 8.

Definition newline : string := String (ascii_of_nat 10) EmptyString.

(** [initializeResourceHosting] only assigns members of the object it is
    called on ([DiscoveryManager::getInstance()] yields the discovery
    service's own singleton). *)
Definition initializeResourceHosting (c : ResourceHosting) : ResourceHosting :=
  mkResourceHosting (presenceHandle c) (hostingObjectList c)
                    (Some DiscoveryManager_getInstance)
                    (Some bind_presenceHandler) (Some bind_discoverHandler).

Section ResourceHostingImpl.
Context {env : Environment}.

Definition requestMulticastPresence : M unit :=
  try_catch
    (cb ← gets pPresenceCB;
     h ← PresenceSubscriber_new ("coap://" +:+ OC_MULTICAST_PREFIX) CT_DEFAULT cb;
     modify_this (set_presenceHandle h))
    (λ e, Some (throw e)).

Definition requestDiscovery (address : string) : M unit :=
  let host := address in
  let uri := (OC_MULTICAST_DISCOVERY_URI +:+ "?rt=Resource.Hosting")%string in
  let type := CT_DEFAULT in
  dm ← gets discoveryManager;
  match dm with
  | None => undefined
  | Some _ =>
      cb ← gets pDiscoveryCB;
      DiscoveryManager_discoverResource host uri type cb
  end.

Definition requestMulticastDiscovery : M unit :=
  requestDiscovery requestDiscovery_default_address.

Definition startHosting : M unit :=
  try_catch
    (requestMulticastPresence ;; requestMulticastDiscovery)
    (λ e, match e with
          | PlatformException _ => Some (throw e)
          | InvalidParameterException _ => Some (throw e)
          | _ => None
          end).

Definition stopHosting : M unit :=
  h ← gets presenceHandle;
  (if isSubscribing h then PresenceSubscriber_unsubscribe else mret tt) ;;
  l ← gets hostingObjectList;
  for_each l (λ it,
    (* [it.reset()] empties the loop's own copy of the pointer *)
    let it : HostingObjectPtr := None in
    mret tt).

Definition presenceHandler (ret : OCStackResult) (seq : Z) (address : string) : M unit :=
  match ret with
  | OC_STACK_OK
  | OC_STACK_CONTINUE
  | OC_STACK_RESOURCE_CREATED =>
      requestDiscovery address
  | OC_STACK_RESOURCE_DELETED
  | OC_STACK_COMM_ERROR
  | OC_STACK_TIMEOUT
  | OC_STACK_PRESENCE_STOPPED
  | OC_STACK_PRESENCE_TIMEOUT
  | OC_STACK_PRESENCE_DO_NOT_HANDLE
  | OC_STACK_ERROR =>
      mret tt
  | OC_STACK_INVALID_URI
  | OC_STACK_INVALID_QUERY
  | OC_STACK_INVALID_IP
  | OC_STACK_INVALID_PORT
  | OC_STACK_INVALID_CALLBACK
  | OC_STACK_INVALID_METHOD
  | OC_STACK_INVALID_PARAM
  | OC_STACK_INVALID_OBSERVE_PARAM
  | OC_STACK_NO_MEMORY
  | OC_STACK_ADAPTER_NOT_ENABLED
  | OC_STACK_NOTIMPL
  | OC_STACK_NO_RESOURCE
  | OC_STACK_RESOURCE_ERROR
  | OC_STACK_SLOW_RESOURCE
  | OC_STACK_DUPLICATE_REQUEST
  | OC_STACK_NO_OBSERVERS
  | OC_STACK_OBSERVER_NOT_FOUND
  | OC_STACK_INVALID_OPTION
  | OC_STACK_VIRTUAL_DO_NOT_HANDLE
  | OC_STACK_MALFORMED_RESPONSE
  | OC_STACK_PERSISTENT_BUFFER_REQUIRED
  | OC_STACK_INVALID_REQUEST_HANDLE
  | OC_STACK_INVALID_DEVICE_INFO
  | OC_STACK_INVALID_JSON =>
      mret tt
  | OC_STACK_UNDEFINED _ =>
      mret tt
  end.

End ResourceHostingImpl.

Definition isSameRemoteResource (remoteResource_1 remoteResource_2 : RemoteObjectPtr) : M bool :=
  r1 ← deref remoteResource_1;
  r2 ← deref remoteResource_2;
  let ret := false in
  if String.eqb (getAddress r1) (getAddress r2) && String.eqb (getUri r1) (getUri r2)
  then mret true
  else mret ret.

(** The loop of [findRemoteResource]; [retObject] is the local it
    assigns to. *)
Fixpoint findRemoteResource_loop (l : list HostingObjectPtr) (remoteResource : RemoteObjectPtr)
    (retObject : HostingObjectPtr) : M HostingObjectPtr :=
  match l with
  | [] => mret retObject
  | it :: l' =>
      inListPtr ← getRemoteResource it;
      match inListPtr with
      | None => findRemoteResource_loop l' remoteResource retObject
      | Some _ =>
          same ← isSameRemoteResource inListPtr remoteResource;
          if same : bool
          then findRemoteResource_loop l' remoteResource it
          else findRemoteResource_loop l' remoteResource retObject
      end
  end.

Definition findRemoteResource (remoteResource : RemoteObjectPtr) : M HostingObjectPtr :=
  l ← gets hostingObjectList;
  findRemoteResource_loop l remoteResource None.

Definition discoverHandler (remoteResource : RemoteObjectPtr) : M unit :=
  r ← deref remoteResource;
  let discoverdUri := getUri r in
  c ← lift (StdString.compare discoverdUri
              (StdString.size_t_sub (StdString.size discoverdUri) HOSTING_TAG_SIZE)
              HOSTING_TAG_SIZE HOSTING_TAG);
  if negb (c =? 0) then mret tt
  else
    foundHostingObject ← findRemoteResource remoteResource;
    match foundHostingObject with
    | None =>
        p ← HostingObject_new;
        let foundHostingObject : HostingObjectPtr := Some p in
        initializeHostingObject foundHostingObject remoteResource
          (bind_destroyedHostingObject foundHostingObject) ;;
        modify_this (λ c, set_hostingObjectList (hostingObjectList c ++ [foundHostingObject]) c)
    | Some _ => mret tt
    end.

(** [std::find(begin, end, destroyedPtr)]: the position of the first
    element equal to [destroyedPtr], if any. *)
Definition std_find (l : list HostingObjectPtr) (destroyedPtr : HostingObjectPtr) : option nat :=
  fst <$> list_find (λ it, it = destroyedPtr) l.

Definition destroyedHostingObject (destroyedPtr : HostingObjectPtr) : M unit :=
  l ← gets hostingObjectList;
  match std_find l destroyedPtr with
  | Some foundObjectIter =>
      print ("destroy hosting object." +:+ newline) ;;
      modify_this (λ c, set_hostingObjectList (delete foundObjectIter (hostingObjectList c)) c)
  | None => mret tt
  end.

(* ================================================================== *)
(** ** The singleton accessor *)

(** The default-constructed coordinator: no subscription, an empty
    registry, no callbacks bound and no discovery manager yet. *)
Definition ResourceHosting_new : ResourceHosting :=
  mkResourceHosting (mkPresenceSubscriber false) [] None None None.

(** The statics of the class, the coordinator objects built so far (the
    address of an object is its position in [instances]) and the objects
    [initializeResourceHosting] ran on, in order. *)
Record Process : Type := mkProcess {
  s_instance : option nat;
  s_mutexForCreation : bool;
  instances : list ResourceHosting;
  initialized : list nat
}.

(** [s_mutexForCreation.lock()]: does not return ([None]) while the
    mutex is held. *)
Definition mutex_lock (pr : Process) : option Process :=
  if s_mutexForCreation pr then None
  else Some (mkProcess (s_instance pr) true (instances pr) (initialized pr)).

Definition mutex_unlock (pr : Process) : Process :=
  mkProcess (s_instance pr) false (instances pr) (initialized pr).

(** [s_instance = new ResourceHosting()]. *)
Definition construct (pr : Process) : Process :=
  mkProcess (Some (length (instances pr))) (s_mutexForCreation pr)
            (instances pr ++ [ResourceHosting_new]) (initialized pr).

(** [s_instance->initializeResourceHosting()]. *)
Definition initialize (pr : Process) : option Process :=
  a ← s_instance pr;
  Some (mkProcess (s_instance pr) (s_mutexForCreation pr)
                  (alter initializeResourceHosting a (instances pr))
                  (initialized pr ++ [a])).

(** [getInstance()], called by one thread at a time; the result is the
    pointer returned and the process state, [None] if the call does not
    return. *)
Definition getInstance (pr : Process) : option (option nat * Process) :=
  match s_instance pr with
  | None =>
      pr ← mutex_lock pr;
      pr ← match s_instance pr with
           | None => initialize (construct pr)
           | Some _ => Some pr
           end;
      let pr := mutex_unlock pr in
      Some (s_instance pr, pr)
  | Some _ => Some (s_instance pr, pr)
  end.

(** A sequence of [n] calls; the pointers returned, first call first. *)
Fixpoint getInstance_calls (n : nat) (pr : Process) : option (list (option nat) * Process) :=
  match n with
  | O => Some ([], pr)
  | S n' =>
      '(r, pr') ← getInstance pr;
      '(rs, pr'') ← getInstance_calls n' pr';
      Some (r :: rs, pr'')
  end.

(** Program start: [s_instance(nullptr)], the mutex free, nothing built. *)
Definition process_start : Process := mkProcess None false [] [].

(** ** [getInstance()] called by several threads *)

(** Where a thread stands in [getInstance()]. *)
Inductive Pc : Type :=
  | at_check
  | at_lock
  | at_recheck
  | at_new
  | at_initialize
  | at_unlock
  | at_return
  | returned (r : option nat).

(** One step of a thread; [None] when it cannot move: it waits for the
    mutex, or it has returned. *)
Definition thread_step (pr : Process) (c : Pc) : option (Process * Pc) :=
  match c with
  | at_check =>
      Some (pr, match s_instance pr with None => at_lock | Some _ => at_return end)
  | at_lock => pr' ← mutex_lock pr; Some (pr', at_recheck)
  | at_recheck =>
      Some (pr, match s_instance pr with None => at_new | Some _ => at_unlock end)
  | at_new => Some (construct pr, at_initialize)
  | at_initialize => pr' ← initialize pr; Some (pr', at_unlock)
  | at_unlock => Some (mutex_unlock pr, at_return)
  | at_return => Some (pr, returned (s_instance pr))
  | returned _ => None
  end.

(** A thread that runs alone for at most [fuel] steps. *)
Fixpoint thread_run (fuel : nat) (pr : Process) (c : Pc) : option (Process * Pc) :=
  match c, fuel with
  | returned _, _ => Some (pr, c)
  | _, O => None
  | _, S fuel' => '(pr', c') ← thread_step pr c; thread_run fuel' pr' c'
  end.

Record Config : Type := mkConfig {
  shared : Process;
  threads : list Pc
}.

(** Any thread that can move may take the next step. *)
Inductive step : Config → Config → Prop :=
  | step_thread (pr pr' : Process) (ts : list Pc) (i : nat) (c c' : Pc) :
      ts !! i = Some c →
      thread_step pr c = Some (pr', c') →
      step (mkConfig pr ts) (mkConfig pr' (<[i := c']> ts)).

(** Whether a thread standing at [c] holds the mutex. *)
Definition in_critical_section (c : Pc) : bool :=
  match c with
  | at_recheck | at_new | at_initialize | at_unlock => true
  | _ => false
  end.

(** What the shared state must be for a thread to stand where it does. *)
Definition thread_ok (pr : Process) (c : Pc) : Prop :=
  match c with
  | at_new => s_instance pr = None
  | at_initialize => s_instance pr = Some 0%nat ∧ initialized pr = []
  | at_unlock | at_return => s_instance pr = Some 0%nat
  | returned r => r = Some 0%nat ∧ s_instance pr = Some 0%nat
  | _ => True
  end.

(** How many threads hold the mutex. *)
Definition holders (ts : list Pc) : nat :=
  length (filter (λ c, in_critical_section c = true) ts).

(** The invariant of the interleaved accessor. *)
Definition config_inv (cfg : Config) : Prop :=
  holders (threads cfg) = (if s_mutexForCreation (shared cfg) then 1 else 0)%nat
  ∧ (∀ j c, threads cfg !! j = Some c → thread_ok (shared cfg) c)
  ∧ match s_instance (shared cfg) with
    | None => instances (shared cfg) = [] ∧ initialized (shared cfg) = []
    | Some a =>
        a = 0%nat ∧ length (instances (shared cfg)) = 1%nat
        ∧ (initialized (shared cfg) = [0%nat]
           ∨ (initialized (shared cfg) = [] ∧ at_initialize ∈ threads cfg))
    end.

(** The configuration after the threads listed in [sched] took one step
    each, in that order. *)
Fixpoint run_schedule (sched : list nat) (cfg : Config) : option Config :=
  match sched with
  | [] => Some cfg
  | i :: sched' =>
      c ← threads cfg !! i;
      '(pr', c') ← thread_step (shared cfg) c;
      run_schedule sched' (mkConfig pr' (<[i := c']> (threads cfg)))
  end.

(* ================================================================== *)
(** ** Runs of the coordinator *)

(** The coordinator as [getInstance()] hands it out, before any event. *)
Definition initial_world : World :=
  mkWorld (initializeResourceHosting ResourceHosting_new) ∅ [] [].

(** What can happen to the coordinator: its two public entry points and
    the three callbacks it binds. *)
Inductive Event : Type :=
  | ev_startHosting
  | ev_stopHosting
  | ev_presence (ret : OCStackResult) (seq : Z) (address : string)
  | ev_discovered (remoteResource : RemoteObject)
  | ev_destroyed (destroyedPtr : HostingObjectPtr).

Section Runs.
Context {env : Environment}.

Definition handle (e : Event) : M unit :=
  match e with
  | ev_startHosting => startHosting
  | ev_stopHosting => stopHosting
  | ev_presence ret seq address => presenceHandler ret seq address
  | ev_discovered r => discoverHandler (Some r)
  | ev_destroyed p => destroyedHostingObject p
  end.

(** The state after a sequence of events; an event that throws leaves
    the state it had reached. *)
Definition run (es : list Event) (w : World) : World :=
  foldl (λ w e, (handle e w).2) w es.

End Runs.

(** The state after a sequence of discovery-candidate handler
    invocations. *)
Definition run_discoveries (cs : list RemoteObject) (w : World) : World :=
  foldl (λ w c, (discoverHandler (Some c) w).2) w cs.

(* ================================================================== *)
(** ** Reading the registry *)

Definition registry (w : World) : list HostingObjectPtr := hostingObjectList (this w).

(** The hosting object an entry points to. *)
Definition entry_object (w : World) (it : HostingObjectPtr) : option HostingObject :=
  p ← it; heap w !! p.

(** The descriptor an entry wraps; [None] also when it wraps [nullptr]. *)
Definition entry_descriptor (w : World) (it : HostingObjectPtr) : option RemoteObject :=
  o ← entry_object w it; remoteObject o.

(** The dedup key of a descriptor. *)
Definition key (r : RemoteObject) : string * string := (getAddress r, getUri r).

(** Every entry of the registry is a non-null pointer to a live object. *)
Definition registry_live (w : World) : Prop :=
  ∀ it, it ∈ registry w → is_Some (entry_object w it).

(** The comparison [isSameRemoteResource] makes, on two descriptors. *)
Definition same_key (r1 r2 : RemoteObject) : bool :=
  String.eqb (getAddress r1) (getAddress r2) && String.eqb (getUri r1) (getUri r2).

(** Whether the lookup loop takes entry [it] for candidate [c]: the
    entry wraps a descriptor, and it compares equal to [c]. *)
Definition entry_matches (w : World) (c : RemoteObject) (it : HostingObjectPtr) : bool :=
  match entry_descriptor w it with
  | Some r => same_key r c
  | None => false
  end.

(** The dedup keys of the registry, entry by entry. *)
Definition registry_keys (w : World) : list (option (string * string)) :=
  (λ it, key <$> entry_descriptor w it) <$> registry w.

(** The invariant of the registry: every entry wraps a descriptor, and
    no dedup key occurs twice. *)
Definition registry_inv (w : World) : Prop :=
  (∀ it, it ∈ registry w → is_Some (entry_descriptor w it))
  ∧ NoDup (registry_keys w).

(** The state admission leads to: a new hosting object at a fresh
    address, bound to the candidate and to its termination callback,
    appended to the registry. *)
Definition admitted (r : RemoteObject) (w : World) : World :=
  let p := fresh (dom (heap w)) in
  mkWorld (set_hostingObjectList (registry w ++ [Some p]) (this w))
          (<[p := mkHostingObject (Some r) (Some (bind_destroyedHostingObject (Some p)))]> (heap w))
          (calls w) (cout w).

(** The result classes of a liveness event that mean "present or
    announcing". *)
Definition present_or_announcing (ret : OCStackResult) : Prop :=
  ret = OC_STACK_OK ∨ ret = OC_STACK_CONTINUE ∨ ret = OC_STACK_RESOURCE_CREATED.

(** The hosting resource-type filter of a discovery query. *)
Definition hosting_type_filter : string := "?rt=Resource.Hosting".

(** Environments and candidates used in the examples. *)
Definition quiet_env : Environment :=
  {| OC_MULTICAST_PREFIX := "224.0.1.187:5683";
     OC_MULTICAST_DISCOVERY_URI := "/oic/res";
     requestDiscovery_default_address := "";
     subscribe_throws := λ _ _ _, None;
     unsubscribe_throws := λ _, None;
     discover_throws := λ _ _ _ _, None |}.

Definition failing_subscription_env (e : exception) : Environment :=
  {| OC_MULTICAST_PREFIX := "224.0.1.187:5683";
     OC_MULTICAST_DISCOVERY_URI := "/oic/res";
     requestDiscovery_default_address := "";
     subscribe_throws := λ _ _ _, Some e;
     unsubscribe_throws := λ _, None;
     discover_throws := λ _ _ _ _, None |}.

Definition light_hosting : RemoteObject := mkRemoteObject "node-5683" "/a/light/hosting" 1.
Definition light_hosting_again : RemoteObject := mkRemoteObject "node-5683" "/a/light/hosting" 2.
Definition fan_hosting : RemoteObject := mkRemoteObject "node-5683" "/a/fan/hosting" 3.
Definition short_uri : RemoteObject := mkRemoteObject "node-9" "/a" 0.

(** A world whose only registry entry wraps no descriptor. *)
Definition world_with_null_entry : World :=
  mkWorld (set_hostingObjectList [Some 0%nat] (initializeResourceHosting ResourceHosting_new))
          {[ 0%nat := mkHostingObject None None ]} [] [].

(* ================================================================== *)
(** ** Further definitions *)

(** Calling the callback that
    [std::bind(&ResourceHosting::destroyedHostingObject, this, ptr)]
    built. *)
Definition invoke_DestroyedCallback (cb : DestroyedCallback) : M unit :=
  match cb with
  | bind_destroyedHostingObject destroyedPtr => destroyedHostingObject destroyedPtr
  end.

(** The candidates a sequence of events delivers to the handler. *)
Definition discovered (es : list Event) : list RemoteObject :=
  omap (λ e, match e with ev_discovered r => Some r | _ => None end) es.

(** The test of [discoverHandler] on a URI, as an abbreviation. *)
Definition hosting_tag_test (uri : string) : outcome Z :=
  StdString.compare uri (StdString.size_t_sub (StdString.size uri) HOSTING_TAG_SIZE)
                    HOSTING_TAG_SIZE HOSTING_TAG.

(** A URI whose length fits [size_t]. *)
Definition fits_size_t (uri : string) : Prop :=
  StdString.size uri < 2 ^ StdString.SIZE_BITS.

Definition failing_discovery_env (e : exception) : Environment :=
  {| OC_MULTICAST_PREFIX := "224.0.1.187:5683";
     OC_MULTICAST_DISCOVERY_URI := "/oic/res";
     requestDiscovery_default_address := "";
     subscribe_throws := λ _ _ _, None;
     unsubscribe_throws := λ _, None;
     discover_throws := λ _ _ _ _, Some e |}.

Definition failing_unsubscribe_env (e : exception) : Environment :=
  {| OC_MULTICAST_PREFIX := "224.0.1.187:5683";
     OC_MULTICAST_DISCOVERY_URI := "/oic/res";
     requestDiscovery_default_address := "";
     subscribe_throws := λ _ _ _, None;
     unsubscribe_throws := λ _, Some e;
     discover_throws := λ _ _ _ _, None |}.

(** The initial coordinator with an active presence subscription. *)
Definition subscribed_world : World :=
  mkWorld (set_presenceHandle (mkPresenceSubscriber true)
             (initializeResourceHosting ResourceHosting_new)) ∅ [] [].

(** Entries of the registry wrap descriptors that satisfy [Q]. *)
Definition hosted_satisfy (Q : RemoteObject → Prop) (w : World) : Prop :=
  ∀ it, it ∈ registry w → ∃ r, entry_descriptor w it = Some r ∧ Q r.

(* ================================================================== *)
(** * Properties *)

(** ** Strings and the suffix test *)

Lemma string_compare_refl (s : string) : String.compare s s = Eq.
Proof.
  pose proof (String.compare_antisym s s) as Ha.
  destruct (String.compare s s); simpl in Ha; congruence.
Qed.

Lemma string_compare_Eq (s t : string) : String.compare s t = Eq ↔ s = t.
Proof.
  split.
  - apply String.compare_eq_iff.
  - intros ->. apply string_compare_refl.
Qed.

Lemma int_of_comparison_zero (c : comparison) :
  StdString.int_of_comparison c = 0 ↔ c = Eq.
Proof. destruct c; simpl; split; intros Hc; congruence || lia. Qed.

Lemma substring_whole (s : string) : substring 0 (String.length s) s = s.
Proof. induction s as [|a s IH]; simpl; [done | by rewrite IH]. Qed.

Lemma append_String (a : ascii) (p t : string) :
  (String a p +:+ t)%string = String a (p +:+ t).
Proof. reflexivity. Qed.

Lemma substring_after_prefix (p t : string) :
  substring (String.length p) (String.length t) (p +:+ t) = t.
Proof.
  induction p as [|a p IH]; [apply substring_whole |].
  rewrite append_String. simpl. exact IH.
Qed.

Lemma substring_split (n : nat) (s : string) :
  (n ≤ String.length s)%nat →
  s = (substring 0 n s +:+ substring n (String.length s - n) s)%string.
Proof.
  revert s. induction n as [|n IH]; intros s Hn.
  - simpl. rewrite Nat.sub_0_r.
    destruct s; simpl; [done | by rewrite substring_whole].
  - destruct s as [|a s]; simpl in *; [lia |].
    rewrite append_String. f_equal. apply IH. lia.
Qed.

Lemma string_length_append (p t : string) :
  String.length (p +:+ t) = (String.length p + String.length t)%nat.
Proof.
  induction p as [|a p IH]; [done |].
  rewrite append_String. simpl. by rewrite IH.
Qed.

(** The last [length t] characters of [s] are [t] exactly when [s] ends
    with [t]. *)
Lemma substring_suffix_ends_with (s t : string) :
  (String.length t ≤ String.length s)%nat →
  substring (String.length s - String.length t) (String.length t) s = t
  ↔ StdString.ends_with s t.
Proof.
  intros Hlen. split.
  - intros Hsub.
    exists (substring 0 (String.length s - String.length t) s).
    pose proof (substring_split (String.length s - String.length t) s) as Hs.
    replace (String.length s - (String.length s - String.length t))%nat
      with (String.length t) in Hs by lia.
    rewrite Hsub in Hs. apply Hs. lia.
  - intros [p ->].
    rewrite string_length_append.
    replace (String.length p + String.length t - String.length t)%nat
      with (String.length p) by lia.
    apply substring_after_prefix.
Qed.

(** What the test of [discoverHandler] computes on a URI of at least
    eight characters: zero exactly for the URIs ending with the tag. *)
Lemma hosting_tag_compare_long (uri : string) :
  HOSTING_TAG_SIZE ≤ StdString.size uri < 2 ^ StdString.SIZE_BITS →
  ∃ c : Z,
    StdString.compare uri (StdString.size_t_sub (StdString.size uri) HOSTING_TAG_SIZE)
                      HOSTING_TAG_SIZE HOSTING_TAG = Normal c
    ∧ (c = 0 ↔ StdString.ends_with uri HOSTING_TAG).
Proof.
  unfold StdString.compare, StdString.size_t_sub, StdString.size, HOSTING_TAG_SIZE,
    StdString.SIZE_BITS.
  intros [Hlo Hhi].
  rewrite Z.mod_small by lia.
  destruct (Z.ltb_spec (Z.of_nat (String.length uri)) (Z.of_nat (String.length uri) - 8));
    [lia |].
  eexists; split; [reflexivity |].
  rewrite int_of_comparison_zero, string_compare_Eq.
  replace (Z.to_nat (Z.of_nat (String.length uri) - 8))
    with (String.length uri - String.length HOSTING_TAG)%nat by (simpl; lia).
  replace (Z.to_nat (Z.min 8 (Z.of_nat (String.length uri) - (Z.of_nat (String.length uri) - 8))))
    with (String.length HOSTING_TAG) by (simpl; lia).
  apply substring_suffix_ends_with. simpl. lia.
Qed.

(** On a shorter URI the subtraction wraps around and [compare] throws. *)
Lemma hosting_tag_compare_short (uri : string) :
  StdString.size uri < HOSTING_TAG_SIZE →
  StdString.compare uri (StdString.size_t_sub (StdString.size uri) HOSTING_TAG_SIZE)
                    HOSTING_TAG_SIZE HOSTING_TAG = Throw out_of_range.
Proof.
  unfold StdString.compare, StdString.size_t_sub, StdString.size, HOSTING_TAG_SIZE,
    StdString.SIZE_BITS.
  intros Hlt.
  replace ((Z.of_nat (String.length uri) - 8) mod 2 ^ 64)
    with (Z.of_nat (String.length uri) - 8 + 2 ^ 64).
  - destruct (Z.ltb_spec (Z.of_nat (String.length uri))
                (Z.of_nat (String.length uri) - 8 + 2 ^ 64)); [done | lia].
  - apply Z.mod_unique with (q := -1); lia.
Qed.

(** ** The admission filter *)

(** X1. In every state, a candidate whose URI has at least eight
    characters and does not end with ["/hosting"] (the comparison is
    exact, case included) is rejected: the handler returns normally and
    nothing of the state changes. *)
Lemma discoverHandler_rejects (w : World) (r : RemoteObject) :
  HOSTING_TAG_SIZE ≤ StdString.size (getUri r) < 2 ^ StdString.SIZE_BITS →
  ¬ StdString.ends_with (getUri r) HOSTING_TAG →
  discoverHandler (Some r) w = (Normal tt, w).
Proof.
  intros Hsz Hno.
  destruct (hosting_tag_compare_long (getUri r) Hsz) as (c & Hc & Hiff).
  unfold discoverHandler. simpl.
  unfold mbind, M_bind, mret, M_ret, lift. rewrite Hc.
  destruct (Z.eqb_spec c 0) as [Hz|Hz]; simpl; [|done].
  exfalso. by apply Hno, Hiff.
Qed.

Lemma discoverHandler_short_uri_throws (w : World) (r : RemoteObject) :
  StdString.size (getUri r) < HOSTING_TAG_SIZE →
  discoverHandler (Some r) w = (Throw out_of_range, w).
Proof.
  intros Hsz. unfold discoverHandler. simpl.
  unfold mbind, M_bind, mret, M_ret, lift.
  by rewrite (hosting_tag_compare_short _ Hsz).
Qed.

(** ** The lookup *)

Ltac unfold_M :=
  unfold mbind, M_bind, mret, M_ret, lift, gets, modify_this, throw, undefined,
    print, deref in *.

Lemma same_key_true (r1 r2 : RemoteObject) :
  same_key r1 r2 = true ↔ getAddress r1 = getAddress r2 ∧ getUri r1 = getUri r2.
Proof.
  unfold same_key. rewrite andb_true_iff, !String.eqb_eq. done.
Qed.

Lemma same_key_key (r1 r2 : RemoteObject) :
  same_key r1 r2 = true ↔ key r1 = key r2.
Proof.
  rewrite same_key_true. unfold key. split.
  - intros [-> ->]. done.
  - intros [= -> ->]. done.
Qed.

Lemma isSameRemoteResource_same_key (r1 r2 : RemoteObject) (w : World) :
  isSameRemoteResource (Some r1) (Some r2) w = (Normal (same_key r1 r2), w).
Proof.
  unfold isSameRemoteResource, same_key. unfold_M. simpl.
  by destruct (_ && _).
Qed.

(** On a registry of live entries the loop returns normally, leaves the
    state alone and yields the last matching entry, or the initial value
    of [retObject] when there is none. *)
Lemma findRemoteResource_loop_spec (w : World) (c : RemoteObject)
    (l : list HostingObjectPtr) (retObject : HostingObjectPtr) :
  (∀ it, it ∈ l → is_Some (entry_object w it)) →
  findRemoteResource_loop l (Some c) retObject w
  = (Normal (foldl (λ acc it, if entry_matches w c it then it else acc) retObject l), w).
Proof.
  revert retObject. induction l as [|it l IH]; intros retObject Hlive; [done |].
  assert (Hl : ∀ it', it' ∈ l → is_Some (entry_object w it'))
    by (intros it' Hin; apply Hlive; by right).
  destruct (Hlive it) as [o Ho]; [by left |].
  simpl. unfold entry_matches, entry_descriptor. rewrite Ho. simpl.
  destruct it as [p|]; [|done]. simpl in Ho.
  unfold mbind at 1. unfold M_bind, getRemoteResource. rewrite Ho.
  destruct (remoteObject o) as [r|] eqn:Hr.
  - unfold mbind at 1. unfold M_bind.
    rewrite isSameRemoteResource_same_key.
    destruct (same_key r c); apply IH, Hl.
  - apply IH, Hl.
Qed.

Lemma foldl_pick_cases (w : World) (c : RemoteObject)
    (l : list HostingObjectPtr) (retObject : HostingObjectPtr) :
  let res := foldl (λ acc it, if entry_matches w c it then it else acc) retObject l in
  (res = retObject ∧ ∀ it, it ∈ l → entry_matches w c it = false)
  ∨ (res ∈ l ∧ entry_matches w c res = true).
Proof.
  revert retObject. induction l as [|it l IH]; intros retObject; simpl.
  - left. split; [done |]. intros it Hin. by apply elem_of_nil in Hin.
  - destruct (entry_matches w c it) eqn:Hm.
    + destruct (IH it) as [[-> Hnone]|[Hin Hres]].
      * right. split; [by left | done].
      * right. split; [by right | done].
    + destruct (IH retObject) as [[-> Hnone]|[Hin Hres]].
      * left. split; [done |]. intros it' [->|Hin]%elem_of_cons; [done | by apply Hnone].
      * right. split; [by right | done].
Qed.

(** The lookup proper: total on a registry of live entries; it finds
    nothing exactly when no entry matches the candidate. *)
Lemma findRemoteResource_spec (w : World) (c : RemoteObject) :
  registry_live w →
  ∃ res : HostingObjectPtr,
    findRemoteResource (Some c) w = (Normal res, w)
    ∧ ((res = None ∧ ∀ it, it ∈ registry w → entry_matches w c it = false)
       ∨ (res ∈ registry w ∧ entry_matches w c res = true)).
Proof.
  intros Hlive. unfold findRemoteResource. unfold_M.
  change (hostingObjectList (this w)) with (registry w).
  rewrite (findRemoteResource_loop_spec w c _ None Hlive).
  eexists; split; [reflexivity |].
  apply foldl_pick_cases.
Qed.

(** ** Admission *)

Lemma fresh_heap (w : World) : heap w !! fresh (dom (heap w)) = None.
Proof. apply not_elem_of_dom, is_fresh. Qed.

(** A candidate that passes the filter and matches no entry is admitted. *)
Lemma discoverHandler_admits (w : World) (r : RemoteObject) :
  registry_live w →
  StdString.compare (getUri r)
    (StdString.size_t_sub (StdString.size (getUri r)) HOSTING_TAG_SIZE)
    HOSTING_TAG_SIZE HOSTING_TAG = Normal 0 →
  (∀ it, it ∈ registry w → entry_matches w r it = false) →
  discoverHandler (Some r) w = (Normal tt, admitted r w).
Proof.
  intros Hlive Hc Hnone.
  destruct (findRemoteResource_spec w r Hlive) as (res & Hfind & Hres).
  assert (res = None) as ->.
  { destruct Hres as [[-> _]|[Hin Hm]]; [done |]. by rewrite Hnone in Hm. }
  unfold discoverHandler. simpl.
  unfold mbind at 1; unfold M_bind, mret, M_ret.
  unfold mbind at 1; unfold M_bind, lift. rewrite Hc. simpl.
  unfold mbind at 1; unfold M_bind. rewrite Hfind.
  unfold mbind, M_bind, HostingObject_new, initializeHostingObject, modify_this,
    admitted, registry. simpl.
  rewrite lookup_insert_eq. simpl. by rewrite insert_insert_eq.
Qed.

(** A candidate that passes the filter and matches an entry is dropped. *)
Lemma discoverHandler_drops_known (w : World) (r : RemoteObject) (it : HostingObjectPtr) :
  registry_live w →
  StdString.compare (getUri r)
    (StdString.size_t_sub (StdString.size (getUri r)) HOSTING_TAG_SIZE)
    HOSTING_TAG_SIZE HOSTING_TAG = Normal 0 →
  it ∈ registry w → entry_matches w r it = true →
  discoverHandler (Some r) w = (Normal tt, w).
Proof.
  intros Hlive Hc Hin Hm.
  destruct (findRemoteResource_spec w r Hlive) as (res & Hfind & Hres).
  destruct res as [p|].
  - unfold discoverHandler. simpl.
    unfold mbind at 1; unfold M_bind, mret, M_ret.
    unfold mbind at 1; unfold M_bind, lift. rewrite Hc. simpl.
    unfold mbind at 1; unfold M_bind. by rewrite Hfind.
  - destruct Hres as [[_ Hnone]|[Hin' Hm']]; [|done].
    by rewrite (Hnone it Hin) in Hm.
Qed.

(** Every invocation on a registry of live entries does one of three
    things: throw [std::out_of_range], return leaving the state alone, or
    admit a candidate no entry matches. *)
Lemma discoverHandler_cases (w : World) (r : RemoteObject) :
  registry_live w →
  discoverHandler (Some r) w = (Throw out_of_range, w)
  ∨ discoverHandler (Some r) w = (Normal tt, w)
  ∨ ((∀ it, it ∈ registry w → entry_matches w r it = false)
     ∧ discoverHandler (Some r) w = (Normal tt, admitted r w)).
Proof.
  intros Hlive.
  destruct (StdString.compare (getUri r)
    (StdString.size_t_sub (StdString.size (getUri r)) HOSTING_TAG_SIZE)
    HOSTING_TAG_SIZE HOSTING_TAG) as [c| e |] eqn:Hc.
  - destruct (Z.eqb_spec c 0) as [->|Hz].
    + destruct (findRemoteResource_spec w r Hlive) as (res & Hfind & [[-> Hnone]|[Hin Hm]]).
      * right; right. split; [done |]. by apply discoverHandler_admits.
      * right; left. by apply (discoverHandler_drops_known w r res).
    + right; left. unfold discoverHandler. simpl.
      unfold mbind, M_bind, mret, M_ret, lift. rewrite Hc.
      destruct (Z.eqb_spec c 0); [done |]. done.
  - left. unfold discoverHandler. simpl.
    unfold mbind, M_bind, mret, M_ret, lift. rewrite Hc.
    unfold StdString.compare in Hc.
    destruct (_ <? _); by inversion Hc.
  - unfold StdString.compare in Hc. by destruct (_ <? _).
Qed.

(** ** The registry invariant *)

Lemma registry_inv_live (w : World) : registry_inv w → registry_live w.
Proof.
  intros [Hdesc _] it Hin. destruct (Hdesc it Hin) as [r Hr].
  unfold entry_descriptor in Hr. destruct (entry_object w it); [done | done].
Qed.

(** The invariant reads only the registry and the heap. *)
Lemma registry_inv_frame (w w' : World) :
  registry w' = registry w → heap w' = heap w → registry_inv w → registry_inv w'.
Proof.
  intros Hreg Hheap [Hdesc Hnd].
  assert (Hd : ∀ it, entry_descriptor w' it = entry_descriptor w it).
  { intros it. unfold entry_descriptor, entry_object. by rewrite Hheap. }
  split.
  - intros it. rewrite Hreg, Hd. apply Hdesc.
  - unfold registry_keys. rewrite Hreg.
    erewrite list_fmap_ext; [exact Hnd |]. intros i it _. simpl. by rewrite Hd.
Qed.

Lemma admitted_old_entry (w : World) (r : RemoteObject) (it : HostingObjectPtr) :
  is_Some (entry_object w it) →
  entry_descriptor (admitted r w) it = entry_descriptor w it.
Proof.
  intros [o Ho]. unfold entry_descriptor, entry_object, admitted in *. simpl.
  destruct it as [p|]; [|done]. simpl in *.
  rewrite lookup_insert_ne; [done |].
  intros <-. by rewrite fresh_heap in Ho.
Qed.

Lemma admitted_new_entry (w : World) (r : RemoteObject) :
  entry_descriptor (admitted r w) (Some (fresh (dom (heap w)))) = Some r.
Proof.
  unfold entry_descriptor, entry_object, admitted. simpl.
  by rewrite lookup_insert_eq.
Qed.

Lemma admitted_registry_keys (w : World) (r : RemoteObject) :
  registry_live w →
  registry_keys (admitted r w) = registry_keys w ++ [Some (key r)].
Proof.
  intros Hlive. unfold registry_keys.
  change (registry (admitted r w)) with (registry w ++ [Some (fresh (dom (heap w)))]).
  rewrite fmap_app. simpl. rewrite admitted_new_entry. simpl. f_equal.
  apply list_fmap_ext. intros i it Hi. simpl.
  rewrite admitted_old_entry; [done |].
  apply Hlive. by eapply list_elem_of_lookup_2.
Qed.

Lemma admitted_inv (w : World) (r : RemoteObject) :
  registry_inv w →
  (∀ it, it ∈ registry w → entry_matches w r it = false) →
  registry_inv (admitted r w).
Proof.
  intros Hinv Hnone.
  pose proof (registry_inv_live w Hinv) as Hlive.
  destruct Hinv as [Hdesc Hnd]. split.
  - intros it Hin.
    change (registry (admitted r w)) with (registry w ++ [Some (fresh (dom (heap w)))]) in Hin.
    apply elem_of_app in Hin as [Hin|Hin].
    + rewrite admitted_old_entry; [by apply Hdesc | by apply Hlive].
    + apply list_elem_of_singleton in Hin as ->. rewrite admitted_new_entry. done.
  - rewrite admitted_registry_keys by done.
    apply NoDup_app. split; [done |]. split; [|apply NoDup_singleton].
    intros k Hk Hk'. apply list_elem_of_singleton in Hk' as ->.
    unfold registry_keys in Hk. apply list_elem_of_fmap in Hk as (it & Heq & Hin).
    specialize (Hnone it Hin). unfold entry_matches in Hnone.
    destruct (entry_descriptor w it) as [r'|]; [|done].
    simpl in Heq. assert (Hk : key r' = key r) by congruence.
    apply same_key_key in Hk. congruence.
Qed.

Lemma discoverHandler_inv (w : World) (r : RemoteObject) :
  registry_inv w → registry_inv (discoverHandler (Some r) w).2.
Proof.
  intros Hinv.
  destruct (discoverHandler_cases w r (registry_inv_live w Hinv)) as [->|[->|[Hnone ->]]];
    simpl; [done | done |].
  by apply admitted_inv.
Qed.

Lemma registry_inv_empty (w : World) : registry w = [] → registry_inv w.
Proof.
  intros Hnil. split.
  - intros it. rewrite Hnil. by intros ?%elem_of_nil.
  - unfold registry_keys. rewrite Hnil. apply NoDup_nil_2.
Qed.

Lemma run_discoveries_inv (cs : list RemoteObject) (w : World) :
  registry_inv w → registry_inv (run_discoveries cs w).
Proof.
  revert w. induction cs as [|c cs IH]; intros w Hinv; [done |].
  simpl. apply IH. by apply discoverHandler_inv.
Qed.

(** The invariant, read entry by entry: two different positions of the
    registry wrap descriptors with different dedup keys. *)
Lemma registry_inv_entries (w : World) (i j : nat) (E1 E2 : HostingObjectPtr) :
  registry_inv w → i ≠ j →
  registry w !! i = Some E1 → registry w !! j = Some E2 →
  ∃ r1 r2 : RemoteObject,
    entry_descriptor w E1 = Some r1 ∧ entry_descriptor w E2 = Some r2
    ∧ (getAddress r1, getUri r1) ≠ (getAddress r2, getUri r2).
Proof.
  intros [Hdesc Hnd] Hij Hi Hj.
  destruct (Hdesc E1) as [r1 Hr1]; [by eapply list_elem_of_lookup_2 |].
  destruct (Hdesc E2) as [r2 Hr2]; [by eapply list_elem_of_lookup_2 |].
  exists r1, r2. split; [done |]. split; [done |].
  intros Heq. apply Hij.
  apply (NoDup_lookup (registry_keys w) i j (Some (key r1))); [done | |].
  - unfold registry_keys. rewrite list_lookup_fmap, Hi. simpl. by rewrite Hr1.
  - unfold registry_keys. rewrite list_lookup_fmap, Hj. simpl. rewrite Hr2.
    simpl. unfold key. by rewrite Heq.
Qed.

(** ** Removal and the other entry points leave the invariant alone *)

Lemma for_each_skip {A : Type} (l : list A) (w : World) :
  for_each l (λ _, mret tt) w = (Normal tt, w).
Proof.
  induction l as [|a l IH]; [done |].
  simpl. unfold mbind, M_bind, mret, M_ret in *. exact IH.
Qed.

(** What [destroyedHostingObject] does, by the result of [std::find]. *)
Lemma destroyedHostingObject_unfold (destroyedPtr : HostingObjectPtr) (w : World) :
  destroyedHostingObject destroyedPtr w
  = match std_find (registry w) destroyedPtr with
    | Some i =>
        (Normal tt,
         mkWorld (set_hostingObjectList (delete i (registry w)) (this w)) (heap w)
                 (calls w) (cout w ++ [("destroy hosting object." +:+ newline)%string]))
    | None => (Normal tt, w)
    end.
Proof.
  unfold destroyedHostingObject, registry. unfold_M.
  by destruct (std_find _ _).
Qed.

Lemma destroyedHostingObject_absent (destroyedPtr : HostingObjectPtr) (w : World) :
  destroyedPtr ∉ registry w →
  destroyedHostingObject destroyedPtr w = (Normal tt, w).
Proof.
  intros Hnot. rewrite destroyedHostingObject_unfold.
  unfold std_find.
  destruct (list_find _ _) as [[i it]|] eqn:Hfind; [|done].
  apply list_find_Some in Hfind as (Hi & -> & _).
  exfalso. apply Hnot. by eapply list_elem_of_lookup_2.
Qed.

Lemma destroyedHostingObject_inv (destroyedPtr : HostingObjectPtr) (w : World) :
  registry_inv w → registry_inv (destroyedHostingObject destroyedPtr w).2.
Proof.
  intros [Hdesc Hnd]. rewrite destroyedHostingObject_unfold.
  destruct (std_find _ _) as [i|]; [|done].
  split; simpl.
  - intros it Hin. unfold registry in Hin. simpl in Hin.
    apply list_elem_of_delete_inv in Hin. by apply Hdesc in Hin.
  - unfold registry_keys, registry, entry_descriptor, entry_object. simpl.
    rewrite list_fmap_delete.
    eapply sublist_NoDup; [exact Hnd | apply sublist_delete].
Qed.

Section Frames.
Context {env : Environment}.

Lemma requestDiscovery_frame (address : string) (w : World) :
  registry (requestDiscovery address w).2 = registry w
  ∧ heap (requestDiscovery address w).2 = heap w.
Proof.
  unfold requestDiscovery, DiscoveryManager_discoverResource. unfold_M.
  destruct (discoveryManager (this w)); simpl; [|done].
  by destruct (discover_throws _ _ _ _).
Qed.

Lemma presenceHandler_frame (ret : OCStackResult) (seq : Z) (address : string) (w : World) :
  registry (presenceHandler ret seq address w).2 = registry w
  ∧ heap (presenceHandler ret seq address w).2 = heap w.
Proof. destruct ret; simpl; try done; apply requestDiscovery_frame. Qed.

Lemma requestMulticastPresence_frame (w : World) :
  registry (requestMulticastPresence w).2 = registry w
  ∧ heap (requestMulticastPresence w).2 = heap w.
Proof.
  unfold requestMulticastPresence, try_catch, PresenceSubscriber_new. unfold_M.
  by destruct (subscribe_throws _ _ _).
Qed.

Lemma startHosting_frame (w : World) :
  registry (startHosting w).2 = registry w ∧ heap (startHosting w).2 = heap w.
Proof.
  unfold startHosting, try_catch, requestMulticastDiscovery.
  unfold mbind, M_bind.
  pose proof (requestMulticastPresence_frame w) as [Hr Hh].
  destruct (requestMulticastPresence w) as [[[]| e |] w1]; simpl in *.
  - pose proof (requestDiscovery_frame requestDiscovery_default_address w1) as [Hr' Hh'].
    destruct (requestDiscovery _ w1) as [[[]| e |] w2]; simpl in *.
    + split; congruence.
    + destruct e; simpl; split; congruence.
    + split; congruence.
  - destruct e; simpl; split; congruence.
  - split; congruence.
Qed.

Lemma stopHosting_frame (w : World) :
  registry (stopHosting w).2 = registry w ∧ heap (stopHosting w).2 = heap w.
Proof.
  unfold stopHosting, PresenceSubscriber_unsubscribe. unfold_M.
  destruct (isSubscribing _); simpl.
  - destruct (unsubscribe_throws _); simpl; [done |].
    by rewrite for_each_skip.
  - by rewrite for_each_skip.
Qed.

Lemma handle_inv (e : Event) (w : World) :
  registry_inv w → registry_inv (handle e w).2.
Proof.
  intros Hinv. destruct e as [| |ret seq address|r|p]; simpl.
  - destruct (startHosting_frame w). by apply (registry_inv_frame w).
  - destruct (stopHosting_frame w). by apply (registry_inv_frame w).
  - destruct (presenceHandler_frame ret seq address w). by apply (registry_inv_frame w).
  - by apply discoverHandler_inv.
  - by apply destroyedHostingObject_inv.
Qed.

(** The invariant holds in every state the coordinator reaches. *)
Lemma run_inv (es : list Event) (w : World) :
  registry_inv w → registry_inv (run es w).
Proof.
  revert w. induction es as [|e es IH]; intros w Hinv; [done |].
  simpl. apply IH. by apply handle_inv.
Qed.

End Frames.

(** No pointer occurs twice in a registry that satisfies the invariant. *)
Lemma registry_inv_NoDup (w : World) : registry_inv w → NoDup (registry w).
Proof.
  intros [_ Hnd]. unfold registry_keys in Hnd.
  by apply NoDup_fmap_1 in Hnd.
Qed.

(** ** Two runs *)

(** Two candidates of one sweep with the same address and URI (and
    different instance identifiers): one mirror object is created. *)
Example same_candidate_twice :
  registry (run_discoveries [light_hosting; light_hosting_again] initial_world) = [Some 0%nat]
  ∧ entry_descriptor (run_discoveries [light_hosting; light_hosting_again] initial_world)
                     (Some 0%nat) = Some light_hosting.
Proof. vm_compute. done. Qed.

(** A candidate without the hosting tag changes nothing. *)
Example untagged_candidate :
  discoverHandler (Some (mkRemoteObject "node-5683" "/a/light" 0)) initial_world
  = (Normal tt, initial_world).
Proof. reflexivity. Qed.

(* ================================================================== *)
(** * Main results *)

(** C1. Registry deduplication invariant: after any sequence of
    discovery-candidate handler invocations that starts from an empty
    registry, any two distinct entries [E1], [E2] of the registry wrap
    descriptors, and their (address, URI) pairs differ. *)
Theorem registry_deduplicated (cs : list RemoteObject) (w : World)
    (i j : nat) (E1 E2 : HostingObjectPtr) :
  registry w = [] →
  i ≠ j →
  registry (run_discoveries cs w) !! i = Some E1 →
  registry (run_discoveries cs w) !! j = Some E2 →
  ∃ r1 r2 : RemoteObject,
    entry_descriptor (run_discoveries cs w) E1 = Some r1
    ∧ entry_descriptor (run_discoveries cs w) E2 = Some r2
    ∧ (getAddress r1, getUri r1) ≠ (getAddress r2, getUri r2).
Proof.
  intros Hnil Hij Hi Hj.
  apply (registry_inv_entries _ i j); [|done..].
  by apply run_discoveries_inv, registry_inv_empty.
Qed.

Lemma registry_deduplicated_witness :
  ∃ r1 r2 : RemoteObject,
    entry_descriptor
      (run_discoveries [light_hosting; light_hosting_again; fan_hosting] initial_world)
      (Some 0%nat) = Some r1
    ∧ entry_descriptor
        (run_discoveries [light_hosting; light_hosting_again; fan_hosting] initial_world)
        (Some 1%nat) = Some r2
    ∧ (getAddress r1, getUri r1) ≠ (getAddress r2, getUri r2).
Proof.
  apply (registry_deduplicated [light_hosting; light_hosting_again; fan_hosting]
           initial_world 0 1 (Some 0%nat) (Some 1%nat)).
  - reflexivity.
  - lia.
  - vm_compute. reflexivity.
  - vm_compute. reflexivity.
Defined.

(** C2. [stopHosting()] on a coordinator that hosts one mirror returns
    normally and leaves that mirror in the registry: the loop resets only
    its own copy of each pointer and the list is never cleared. *)
Theorem stopHosting_keeps_registry :
  (stopHosting (env := quiet_env) (run_discoveries [light_hosting] initial_world)).1 = Normal tt
  ∧ registry (stopHosting (env := quiet_env) (run_discoveries [light_hosting] initial_world)).2
    = [Some 0%nat]
  ∧ entry_descriptor
      (stopHosting (env := quiet_env) (run_discoveries [light_hosting] initial_world)).2
      (Some 0%nat) = Some light_hosting.
Proof. vm_compute. done. Qed.

(** C3. The discovery-candidate handler called with a candidate whose
    URI is shorter than the hosting tag throws [std::out_of_range]: the
    start position [size() - HOSTING_TAG_SIZE] wraps around. *)
Theorem discoverHandler_short_uri_out_of_range :
  discoverHandler (Some short_uri) initial_world = (Throw out_of_range, initial_world).
Proof. apply discoverHandler_short_uri_throws. vm_compute. done. Qed.

(** C4. If the subscription step of [startHosting()] throws, the very
    same exception reaches the caller (so a platform failure, an
    invalid-argument failure and any other failure stay what they were),
    the only call issued is the subscription (no discovery sweep), and the
    coordinator object, hence its registry, is as before: a registry that
    was empty remains empty. *)
Theorem startHosting_subscription_failure {env : Environment} (w : World) (e : exception) :
  subscribe_throws (calls w) ("coap://" +:+ OC_MULTICAST_PREFIX) CT_DEFAULT = Some e →
  (startHosting w).1 = Throw e
  ∧ calls (startHosting w).2
    = calls w ++ [SubscribePresence ("coap://" +:+ OC_MULTICAST_PREFIX) CT_DEFAULT
                                    (pPresenceCB (this w))]
  ∧ (∀ host uri ct cb, DiscoverResource host uri ct cb ∈ calls (startHosting w).2 →
                       DiscoverResource host uri ct cb ∈ calls w)
  ∧ this (startHosting w).2 = this w
  ∧ (registry w = [] → registry (startHosting w).2 = []).
Proof.
  intros He.
  assert (Hrun : startHosting w
    = (Throw e, mkWorld (this w) (heap w)
         (calls w ++ [SubscribePresence ("coap://" +:+ OC_MULTICAST_PREFIX) CT_DEFAULT
                                         (pPresenceCB (this w))]) (cout w))).
  { unfold startHosting, requestMulticastPresence, try_catch, PresenceSubscriber_new.
    unfold_M. rewrite He. simpl. by destruct e. }
  rewrite Hrun. simpl. repeat split; try done.
  intros host uri ct cb [Hin|Hin]%elem_of_app; [done |].
  by apply list_elem_of_singleton in Hin.
Qed.

Lemma startHosting_subscription_failure_witness :
  (startHosting (env := failing_subscription_env (InvalidParameterException "host"))
                initial_world).1
  = Throw (InvalidParameterException "host")
  ∧ (startHosting (env := failing_subscription_env (other_exception "bad_alloc"))
                  initial_world).1
    = Throw (other_exception "bad_alloc").
Proof.
  split.
  - apply (startHosting_subscription_failure
             (env := failing_subscription_env (InvalidParameterException "host"))
             initial_world (InvalidParameterException "host")).
    reflexivity.
  - apply (startHosting_subscription_failure
             (env := failing_subscription_env (other_exception "bad_alloc"))
             initial_world (other_exception "bad_alloc")).
    reflexivity.
Defined.

(** C5. A liveness event whose result class is alive ([OC_STACK_OK]),
    continuing announcement ([OC_STACK_CONTINUE]) or resource created
    makes the handler issue exactly one discovery query, to the origin
    address, with the hosting resource-type filter; for every other result
    class, undefined values included, the handler returns normally and
    leaves the whole state, hence the list of issued queries, as it was. *)
Theorem presenceHandler_discovery {env : Environment}
    (ret : OCStackResult) (seq : Z) (address : string) (w : World) :
  discoveryManager (this w) ≠ None →
  (present_or_announcing ret →
     calls (presenceHandler ret seq address w).2
     = calls w ++ [DiscoverResource address (OC_MULTICAST_DISCOVERY_URI +:+ hosting_type_filter)
                                    CT_DEFAULT (pDiscoveryCB (this w))])
  ∧ (¬ present_or_announcing ret →
     presenceHandler ret seq address w = (Normal tt, w)).
Proof.
  intros Hdm. split.
  - assert (Hreq : calls (requestDiscovery address w).2
      = calls w ++ [DiscoverResource address (OC_MULTICAST_DISCOVERY_URI +:+ hosting_type_filter)
                                     CT_DEFAULT (pDiscoveryCB (this w))]).
    { unfold requestDiscovery, DiscoveryManager_discoverResource. unfold_M.
      destruct (discoveryManager (this w)); [|done]. simpl.
      by destruct (discover_throws _ _ _ _). }
    intros [-> | [-> | ->]]; exact Hreq.
  - intros Hnot. unfold present_or_announcing in Hnot.
    destruct ret; try done; exfalso; apply Hnot; auto.
Qed.

Lemma presenceHandler_discovery_witness :
  calls (presenceHandler (env := quiet_env) OC_STACK_OK 7 "node-9" initial_world).2
  = [DiscoverResource "node-9" "/oic/res?rt=Resource.Hosting" CT_DEFAULT
                      (Some bind_discoverHandler)]
  ∧ presenceHandler (env := quiet_env) (OC_STACK_UNDEFINED 4711) 8 "node-9" initial_world
    = (Normal tt, initial_world).
Proof.
  split.
  - apply (proj1 (presenceHandler_discovery (env := quiet_env)
                    OC_STACK_OK 7 "node-9" initial_world ltac:(simpl; discriminate))).
    left. reflexivity.
  - apply (proj2 (presenceHandler_discovery (env := quiet_env)
                    (OC_STACK_UNDEFINED 4711) 8 "node-9" initial_world
                    ltac:(simpl; discriminate))).
    intros [Hc | [Hc | Hc]]; discriminate Hc.
Defined.

(** ** Removal *)

(** After a removal from a registry in which no pointer occurs twice,
    the target is gone. *)
Lemma destroyedHostingObject_removes (destroyedPtr : HostingObjectPtr) (w : World) :
  NoDup (registry w) →
  destroyedPtr ∉ registry (destroyedHostingObject destroyedPtr w).2.
Proof.
  intros Hnd. rewrite destroyedHostingObject_unfold. unfold std_find.
  destruct (list_find _ _) as [[i it]|] eqn:Hfind; simpl.
  - apply list_find_Some in Hfind as (Hi & -> & _).
    unfold registry at 1. simpl.
    intros (j & Hj)%list_elem_of_lookup_1.
    destruct (decide (j < i)%nat) as [Hlt|Hge].
    + rewrite list_lookup_delete_lt in Hj by done.
      pose proof (NoDup_lookup _ _ _ _ Hnd Hi Hj). lia.
    + rewrite list_lookup_delete_ge in Hj by lia.
      pose proof (NoDup_lookup _ _ _ _ Hnd Hi Hj). lia.
  - apply list_find_None in Hfind.
    intros Hin. rewrite Forall_forall in Hfind. by apply (Hfind _ Hin).
Qed.

Lemma initial_world_inv : registry_inv initial_world.
Proof. by apply registry_inv_empty. Qed.

(** C6. Removal is idempotent.  Removing a target that is absent from
    the registry returns normally and changes nothing, in any state.  In a
    state whose registry holds no pointer twice, one removal returns
    normally and leaves the target absent, so that a second removal of the
    same target returns normally and leaves the state of the first.  Every
    state the coordinator reaches from its initial state, under any
    environment and any sequence of events, has such a registry. *)
Theorem destroyedHostingObject_idempotent :
  (∀ (w : World) (destroyedPtr : HostingObjectPtr),
     destroyedPtr ∉ registry w →
     destroyedHostingObject destroyedPtr w = (Normal tt, w))
  ∧ (∀ (w : World) (destroyedPtr : HostingObjectPtr),
       NoDup (registry w) →
       (destroyedHostingObject destroyedPtr w).1 = Normal tt
       ∧ (destroyedPtr ∉ registry (destroyedHostingObject destroyedPtr w).2)
       ∧ destroyedHostingObject destroyedPtr (destroyedHostingObject destroyedPtr w).2
         = (Normal tt, (destroyedHostingObject destroyedPtr w).2))
  ∧ (∀ (env : Environment) (es : list Event), NoDup (registry (run es initial_world))).
Proof.
  split; [|split].
  - intros w p. apply destroyedHostingObject_absent.
  - intros w p Hnd. split; [|split].
    + rewrite destroyedHostingObject_unfold. by destruct (std_find _ _).
    + by apply destroyedHostingObject_removes.
    + by apply destroyedHostingObject_absent, destroyedHostingObject_removes.
  - intros env es. apply registry_inv_NoDup, run_inv, initial_world_inv.
Qed.

Lemma destroyedHostingObject_idempotent_witness :
  destroyedHostingObject (Some 7%nat) initial_world = (Normal tt, initial_world)
  ∧ destroyedHostingObject (Some 0%nat)
      (destroyedHostingObject (Some 0%nat)
         (run_discoveries [light_hosting; fan_hosting] initial_world)).2
    = (Normal tt,
       (destroyedHostingObject (Some 0%nat)
          (run_discoveries [light_hosting; fan_hosting] initial_world)).2).
Proof.
  split.
  - apply (proj1 destroyedHostingObject_idempotent initial_world (Some 7%nat)).
    vm_compute. intros Hin. inversion Hin.
  - apply (proj1 (proj2 destroyedHostingObject_idempotent)
             (run_discoveries [light_hosting; fan_hosting] initial_world) (Some 0%nat)).
    vm_compute. repeat constructor; intros Hin; inversion Hin; subst;
      match goal with H : _ ∈ _ |- _ => inversion H end.
Defined.

(** C7. Dedup equality: on any two descriptors the test returns
    normally, and returns true exactly when the address strings are equal
    and the URI strings are equal; the instance identifiers play no part,
    the result is the same whatever they are. *)
Theorem isSameRemoteResource_iff (remoteResource_1 remoteResource_2 : RemoteObject) (w : World) :
  ∃ ret : bool,
    isSameRemoteResource (Some remoteResource_1) (Some remoteResource_2) w = (Normal ret, w)
    ∧ (ret = true ↔ getAddress remoteResource_1 = getAddress remoteResource_2
                    ∧ getUri remoteResource_1 = getUri remoteResource_2)
    ∧ ∀ id1 id2 : Z,
        isSameRemoteResource
          (Some (mkRemoteObject (getAddress remoteResource_1) (getUri remoteResource_1) id1))
          (Some (mkRemoteObject (getAddress remoteResource_2) (getUri remoteResource_2) id2)) w
        = (Normal ret, w).
Proof.
  exists (same_key remoteResource_1 remoteResource_2). split; [|split].
  - apply isSameRemoteResource_same_key.
  - apply same_key_true.
  - intros id1 id2. by rewrite isSameRemoteResource_same_key.
Qed.

(** ** The singleton accessor *)

Lemma getInstance_existing (pr : Process) (a : nat) :
  s_instance pr = Some a → getInstance pr = Some (Some a, pr).
Proof. intros Ha. unfold getInstance. by rewrite Ha. Qed.

Lemma getInstance_calls_existing (n : nat) (pr : Process) (a : nat) :
  s_instance pr = Some a → getInstance_calls n pr = Some (replicate n (Some a), pr).
Proof.
  intros Ha. induction n as [|n IH]; [done |].
  simpl. rewrite (getInstance_existing pr a Ha). simpl. by rewrite IH.
Qed.

(** C8. Singleton accessor: at program start nothing is constructed; the
    first call to [getInstance()] constructs one coordinator, runs
    [initializeResourceHosting] on it once and returns it; after that,
    any number of calls return that same pointer and leave the process as
    the first call left it, so that nothing is constructed or initialized
    again.  More generally, once [s_instance] is set a call returns it and
    changes nothing, whatever else the process state is. *)
Theorem getInstance_constructs_once :
  instances process_start = [] ∧ initialized process_start = []
  ∧ ∃ pr1 : Process,
      getInstance process_start = Some (Some 0%nat, pr1)
      ∧ instances pr1 = [initializeResourceHosting ResourceHosting_new]
      ∧ initialized pr1 = [0%nat]
      ∧ (∀ n : nat, getInstance_calls n pr1 = Some (replicate n (Some 0%nat), pr1))
      ∧ (∀ n : nat,
           getInstance_calls (S n) process_start = Some (replicate (S n) (Some 0%nat), pr1))
      ∧ (∀ (a : nat) (m : bool) (objs : list ResourceHosting) (inits : list nat),
           getInstance (mkProcess (Some a) m objs inits)
           = Some (Some a, mkProcess (Some a) m objs inits)).
Proof.
  split; [done |]. split; [done |].
  eexists. split; [reflexivity |]. split; [reflexivity |]. split; [reflexivity |].
  split; [|split].
  - intros n. by apply getInstance_calls_existing.
  - intros n. cbn [getInstance_calls].
    change (getInstance process_start) with
      (Some (Some 0%nat,
             mkProcess (Some 0%nat) false [initializeResourceHosting ResourceHosting_new] [0%nat])).
    simpl. by rewrite (getInstance_calls_existing n _ 0%nat).
  - intros a m objs inits. by apply getInstance_existing.
Qed.

(** ** The accessor under interleaving *)

(** A thread running alone does what the sequential accessor does. *)
Lemma thread_run_getInstance (pr : Process) :
  thread_run 7 pr at_check = (λ '(r, pr'), (pr', returned r)) <$> getInstance pr.
Proof.
  destruct pr as [[a|] [|] objs inits]; reflexivity.
Qed.

Lemma holders_insert (ts : list Pc) (i : nat) (c c' : Pc) :
  ts !! i = Some c →
  (holders (<[i := c']> ts) + (if in_critical_section c then 1 else 0)
   = holders ts + (if in_critical_section c' then 1 else 0))%nat.
Proof.
  unfold holders. revert i. induction ts as [|t ts IH]; intros i Hi; [done |].
  destruct i as [|i]; simpl in *.
  - injection Hi as ->. rewrite !filter_cons.
    destruct (in_critical_section c), (in_critical_section c'); simpl;
      repeat case_decide; simpl; try done; lia.
  - rewrite !filter_cons. specialize (IH i Hi).
    case_decide; simpl; lia.
Qed.

Lemma holders_other (ts : list Pc) (i j : nat) (c d : Pc) :
  ts !! i = Some c → ts !! j = Some d → i ≠ j →
  in_critical_section c = true → in_critical_section d = true →
  (2 ≤ holders ts)%nat.
Proof.
  unfold holders. revert i j. induction ts as [|t ts IH]; intros i j Hi Hj Hij Hc Hd; [done |].
  rewrite filter_cons.
  destruct i as [|i], j as [|j]; simpl in *; try done.
  - injection Hi as ->. rewrite decide_True by done. simpl.
    assert (d ∈ filter (λ c, in_critical_section c = true) ts) as Hin.
    { apply list_elem_of_filter. split; [done |]. by eapply list_elem_of_lookup_2. }
    destruct (filter _ ts); [by apply elem_of_nil in Hin | simpl; lia].
  - injection Hj as ->. rewrite decide_True by done. simpl.
    assert (c ∈ filter (λ c, in_critical_section c = true) ts) as Hin.
    { apply list_elem_of_filter. split; [done |]. by eapply list_elem_of_lookup_2. }
    destruct (filter _ ts); [by apply elem_of_nil in Hin | simpl; lia].
  - assert (i ≠ j) by congruence.
    specialize (IH i j Hi Hj H Hc Hd). case_decide; simpl; lia.
Qed.

Lemma holders_unique (ts : list Pc) (i j : nat) (c d : Pc) :
  (holders ts ≤ 1)%nat →
  ts !! i = Some c → ts !! j = Some d → i ≠ j →
  in_critical_section c = true → in_critical_section d = false.
Proof.
  intros Hle Hi Hj Hij Hc.
  destruct (in_critical_section d) eqn:Hd; [|done].
  pose proof (holders_other ts i j c d Hi Hj Hij Hc Hd). lia.
Qed.

Lemma elem_of_insert_other (ts : list Pc) (i : nat) (c c' x : Pc) :
  ts !! i = Some c → c ≠ x → x ∈ ts → x ∈ <[i := c']> ts.
Proof.
  intros Hi Hne (j & Hj)%list_elem_of_lookup_1.
  apply list_elem_of_lookup_2 with j.
  rewrite list_lookup_insert_ne; [done |].
  intros ->. congruence.
Qed.

Lemma elem_of_insert_new (ts : list Pc) (i : nat) (c c' : Pc) :
  ts !! i = Some c → c' ∈ <[i := c']> ts.
Proof.
  intros Hi. apply list_elem_of_lookup_2 with i.
  apply list_lookup_insert_eq. by eapply lookup_lt_Some.
Qed.

Lemma thread_ok_same (pr pr' : Process) (c : Pc) :
  s_instance pr' = s_instance pr → initialized pr' = initialized pr →
  thread_ok pr c → thread_ok pr' c.
Proof. intros Hs Hi. destruct c; simpl; rewrite ?Hs, ?Hi; done. Qed.

Lemma holders_bound (pr : Process) (ts : list Pc) :
  holders ts = (if s_mutexForCreation pr then 1 else 0)%nat → (holders ts ≤ 1)%nat.
Proof. destruct (s_mutexForCreation pr); lia. Qed.

Lemma step_inv (cfg cfg' : Config) : config_inv cfg → step cfg cfg' → config_inv cfg'.
Proof.
  intros (Hh & Hok & Hst) Hstep.
  destruct Hstep as [pr pr' ts i c c' Hi Hc]. simpl in *.
  pose proof (holders_insert ts i c c' Hi) as Hins.
  pose proof (Hok i c Hi) as Hci.
  assert (Hothers : ∀ j d, <[i := c']> ts !! j = Some d →
            (j = i ∧ d = c') ∨ (j ≠ i ∧ ts !! j = Some d)).
  { intros j d Hj. apply list_lookup_insert_Some in Hj as [(-> & -> & _)|[Hne Hj]]; auto. }
  destruct c; simpl in Hc, Hci.
  - (* the unlocked check *)
    injection Hc as <- <-.
    split; [|split]; simpl.
    + destruct (s_instance pr); simpl in Hins; lia.
    + intros j d [[-> ->]|[Hne Hj]]%Hothers; [|by apply (Hok j)].
      destruct (s_instance pr) as [a|] eqn:Ha; simpl; [|done].
      by destruct Hst as [-> _].
    + destruct (s_instance pr); [|done].
      destruct Hst as (Ha & Hlen & [Hinit|[Hinit Hin]]); repeat split; auto.
      right. split; [done |]. by apply (elem_of_insert_other ts i at_check).
  - (* lock *)
    unfold mutex_lock in Hc.
    destruct (s_mutexForCreation pr) eqn:Hm; [done |].
    injection Hc as <- <-.
    split; [|split]; simpl.
    + simpl in Hins. lia.
    + intros j d [[-> ->]|[Hne Hj]]%Hothers; [done |].
      by apply (thread_ok_same pr), (Hok j).
    + destruct (s_instance pr); [|done].
      destruct Hst as (Ha & Hlen & [Hinit|[Hinit Hin]]); repeat split; auto.
      right. split; [done |]. by apply (elem_of_insert_other ts i at_lock).
  - (* the check under the lock *)
    injection Hc as <- <-.
    split; [|split]; simpl.
    + destruct (s_instance pr); simpl in Hins; lia.
    + intros j d [[-> ->]|[Hne Hj]]%Hothers; [|by apply (Hok j)].
      destruct (s_instance pr) as [a|] eqn:Ha; simpl; [|done].
      by destruct Hst as [-> _].
    + destruct (s_instance pr); [|done].
      destruct Hst as (Ha & Hlen & [Hinit|[Hinit Hin]]); repeat split; auto.
      right. split; [done |]. by apply (elem_of_insert_other ts i at_recheck).
  - (* new *)
    injection Hc as <- <-.
    rewrite Hci in Hst. destruct Hst as [Hobjs Hinit].
    split; [|split]; simpl.
    + simpl in Hins. lia.
    + intros j d [[-> ->]|[Hne Hj]]%Hothers.
      * simpl. by rewrite Hobjs.
      * pose proof (holders_unique ts i j at_new d (holders_bound pr ts Hh) Hi Hj
                      ltac:(done) ltac:(done)) as Hd.
        pose proof (Hok j d Hj) as Hdj.
        destruct d; simpl in *; try done; try congruence.
        destruct Hdj; congruence.
    + rewrite Hobjs. simpl. repeat split; auto.
      right. split; [done |]. by apply (elem_of_insert_new ts i at_new).
  - (* initialize *)
    destruct Hci as [Hs Hinit].
    unfold initialize in Hc. rewrite Hs in Hc. simpl in Hc.
    injection Hc as <- <-.
    rewrite Hs in Hst. destruct Hst as (_ & Hlen & _).
    split; [|split]; simpl.
    + simpl in Hins. lia.
    + intros j d [[-> ->]|[Hne Hj]]%Hothers; [done |].
      pose proof (holders_unique ts i j at_initialize d (holders_bound pr ts Hh) Hi Hj
                    ltac:(done) ltac:(done)) as Hd.
      pose proof (Hok j d Hj) as Hdj.
      destruct d; simpl in *; try done.
      by destruct Hdj.
    + split; [done |]. split; [by rewrite length_alter |].
      left. by rewrite Hinit.
  - (* unlock *)
    injection Hc as <- <-.
    assert (s_mutexForCreation pr = true) as Hm.
    { destruct (s_mutexForCreation pr); [done |].
      assert (at_unlock ∈ filter (λ c, in_critical_section c = true) ts) as Hin.
      { apply list_elem_of_filter. split; [done |]. by eapply list_elem_of_lookup_2. }
      unfold holders in Hh. destruct (filter _ ts); [by apply elem_of_nil in Hin | done]. }
    rewrite Hm in Hh.
    split; [|split]; simpl.
    + simpl in Hins. lia.
    + intros j d [[-> ->]|[Hne Hj]]%Hothers; [done |].
      by apply (thread_ok_same pr), (Hok j).
    + destruct (s_instance pr); [|done].
      destruct Hst as (Ha & Hlen & [Hinit|[Hinit Hin]]); repeat split; auto.
      right. split; [done |]. by apply (elem_of_insert_other ts i at_unlock).
  - (* return *)
    injection Hc as <- <-.
    split; [|split]; simpl.
    + simpl in Hins. lia.
    + intros j d [[-> ->]|[Hne Hj]]%Hothers; [|by apply (Hok j)].
      simpl. by rewrite Hci.
    + destruct (s_instance pr); [|done].
      destruct Hst as (Ha & Hlen & [Hinit|[Hinit Hin]]); repeat split; auto.
      right. split; [done |]. by apply (elem_of_insert_other ts i at_return).
  - done.
Qed.

Lemma start_inv (n : nat) : config_inv (mkConfig process_start (replicate n at_check)).
Proof.
  split; [|split]; simpl.
  - unfold holders. induction n as [|n IH]; [done |].
    simpl. rewrite filter_cons. by rewrite decide_False.
  - intros j c Hj. apply lookup_replicate in Hj as [-> _]. done.
  - done.
Qed.

(** X20. However the steps of [n] callers interleave, at most one coordinator
    is ever constructed, [initializeResourceHosting] runs at most once,
    and every caller that has returned got the same pointer. *)
Lemma getInstance_interleaved (n : nat) (cfg : Config) :
  rtc step (mkConfig process_start (replicate n at_check)) cfg →
  (length (instances (shared cfg)) ≤ 1)%nat
  ∧ (length (initialized (shared cfg)) ≤ 1)%nat
  ∧ ∀ r, returned r ∈ threads cfg →
         r = Some 0%nat ∧ length (instances (shared cfg)) = 1%nat.
Proof.
  intros Hrtc.
  assert (Hinv : config_inv cfg).
  { revert cfg Hrtc. apply (rtc_ind_r (λ c, config_inv c)); [apply start_inv |].
    intros y z _ Hyz IH. by apply (step_inv y). }
  destruct Hinv as (_ & Hok & Hst).
  split; [|split].
  - destruct (s_instance (shared cfg)).
    + destruct Hst as (_ & -> & _). done.
    + destruct Hst as [-> _]. simpl. lia.
  - destruct (s_instance (shared cfg)).
    + destruct Hst as (_ & _ & [->|[-> _]]); simpl; lia.
    + destruct Hst as [_ ->]. simpl. lia.
  - intros r (j & Hj)%list_elem_of_lookup_1.
    destruct (Hok j _ Hj) as [-> Hs]. split; [done |].
    rewrite Hs in Hst. by destruct Hst as (_ & Hlen & _).
Qed.

Lemma run_schedule_rtc (sched : list nat) (cfg cfg' : Config) :
  run_schedule sched cfg = Some cfg' → rtc step cfg cfg'.
Proof.
  revert cfg. induction sched as [|i sched IH]; intros cfg Hrun; simpl in Hrun.
  - injection Hrun as ->. apply rtc_refl.
  - destruct (threads cfg !! i) as [c|] eqn:Hi; [|done]. simpl in Hrun.
    destruct (thread_step (shared cfg) c) as [[pr' c']|] eqn:Hc; [|done]. simpl in Hrun.
    eapply rtc_l; [|by apply IH].
    destruct cfg as [pr ts]. by apply (step_thread pr pr' ts i c c').
Qed.

(** Two callers that both see [s_instance] null at the first check. *)
Example two_callers_race :
  run_schedule [0; 1; 0; 0; 0; 0; 0; 1; 1; 1; 0; 1]%nat
               (mkConfig process_start [at_check; at_check])
  = Some (mkConfig (mkProcess (Some 0%nat) false
                              [initializeResourceHosting ResourceHosting_new] [0%nat])
                   [returned (Some 0%nat); returned (Some 0%nat)]).
Proof. reflexivity. Qed.

(** The pointer is published before [initializeResourceHosting] runs: a
    second caller can return it while the first is still about to
    initialize. *)
Example caller_returns_before_initialization :
  run_schedule [0; 0; 0; 0; 1; 1]%nat (mkConfig process_start [at_check; at_check])
  = Some (mkConfig (mkProcess (Some 0%nat) true [ResourceHosting_new] [])
                   [at_initialize; returned (Some 0%nat)]).
Proof. reflexivity. Qed.

(** ** The boundary of the admission gate, and null descriptors *)

Lemma hosting_tag_passes :
  StdString.compare HOSTING_TAG
    (StdString.size_t_sub (StdString.size HOSTING_TAG) HOSTING_TAG_SIZE)
    HOSTING_TAG_SIZE HOSTING_TAG = Normal 0.
Proof. reflexivity. Qed.

Lemma entry_matches_false (w : World) (c : RemoteObject) (it : HostingObjectPtr) :
  (∀ r, entry_descriptor w it = Some r →
        ¬ (getAddress r = getAddress c ∧ getUri r = getUri c)) →
  entry_matches w c it = false.
Proof.
  intros Hne. unfold entry_matches.
  destruct (entry_descriptor w it) as [r|]; [|done].
  apply not_true_is_false. rewrite same_key_true. by apply Hne.
Qed.

Lemma fresh_not_in_registry (w : World) :
  registry_live w → Some (fresh (dom (heap w))) ∉ registry w.
Proof.
  intros Hlive Hin. destruct (Hlive _ Hin) as [o Ho].
  simpl in Ho. by rewrite fresh_heap in Ho.
Qed.

(** C9. The boundary of the admission gate: a candidate whose URI is
    exactly ["/hosting"] passes the suffix test, and when no entry of the
    registry wraps a descriptor with the same address and URI the handler
    returns normally having appended a new mirror object, at an address
    that was not in use, wrapping the candidate. *)
Theorem discoverHandler_admits_exact_tag (w : World) (address : string) (id : Z) :
  registry_live w →
  (∀ it r, it ∈ registry w → entry_descriptor w it = Some r →
           ¬ (getAddress r = address ∧ getUri r = "/hosting")) →
  ∃ (p : loc) (w' : World),
    discoverHandler (Some (mkRemoteObject address "/hosting" id)) w = (Normal tt, w')
    ∧ heap w !! p = None
    ∧ (Some p ∉ registry w)
    ∧ registry w' = registry w ++ [Some p]
    ∧ heap w' !! p
      = Some (mkHostingObject (Some (mkRemoteObject address "/hosting" id))
                              (Some (bind_destroyedHostingObject (Some p))))
    ∧ (∀ q, q ≠ p → heap w' !! q = heap w !! q).
Proof.
  intros Hlive Hnone.
  exists (fresh (dom (heap w))), (admitted (mkRemoteObject address "/hosting" id) w).
  split; [|split; [|split; [|split; [|split]]]].
  - apply discoverHandler_admits; [done | exact hosting_tag_passes |].
    intros it Hin. apply entry_matches_false. intros r Hr. by apply (Hnone it).
  - apply fresh_heap.
  - by apply fresh_not_in_registry.
  - reflexivity.
  - unfold admitted. simpl. by rewrite lookup_insert_eq.
  - intros q Hq. unfold admitted. simpl. by rewrite lookup_insert_ne.
Qed.

Lemma discoverHandler_admits_exact_tag_witness :
  ∃ (p : loc) (w' : World),
    discoverHandler (Some (mkRemoteObject "node-9" "/hosting" 5))
                    (run_discoveries [light_hosting] initial_world) = (Normal tt, w')
    ∧ heap (run_discoveries [light_hosting] initial_world) !! p = None
    ∧ (Some p ∉ registry (run_discoveries [light_hosting] initial_world))
    ∧ registry w' = registry (run_discoveries [light_hosting] initial_world) ++ [Some p]
    ∧ heap w' !! p
      = Some (mkHostingObject (Some (mkRemoteObject "node-9" "/hosting" 5))
                              (Some (bind_destroyedHostingObject (Some p))))
    ∧ (∀ q, q ≠ p → heap w' !! q = heap (run_discoveries [light_hosting] initial_world) !! q).
Proof.
  apply (discoverHandler_admits_exact_tag
           (run_discoveries [light_hosting] initial_world) "node-9" 5).
  - intros it Hin. vm_compute in Hin.
    apply list_elem_of_singleton in Hin as ->. vm_compute. eauto.
  - intros it r Hin. vm_compute in Hin.
    apply list_elem_of_singleton in Hin as ->. vm_compute.
    intros [= <-] [Ha _]. discriminate Ha.
Defined.

(** C10. Lookup robustness: in a registry of live entries, one of which
    wraps a null descriptor, the lookup returns normally for every
    candidate, leaves the state alone, and never returns that entry; when
    no entry that does wrap a descriptor has the candidate's address and
    URI, the lookup finds nothing, and a candidate that passes the suffix
    test is admitted. *)
Theorem findRemoteResource_skips_null (w : World) (it : HostingObjectPtr) (c : RemoteObject)
    (o : HostingObject) :
  registry_live w →
  it ∈ registry w →
  entry_object w it = Some o →
  remoteObject o = None →
  ∃ res : HostingObjectPtr,
    findRemoteResource (Some c) w = (Normal res, w)
    ∧ res ≠ it
    ∧ ((∀ it' r, it' ∈ registry w → entry_descriptor w it' = Some r →
                 ¬ (getAddress r = getAddress c ∧ getUri r = getUri c)) →
       res = None
       ∧ (StdString.compare (getUri c)
            (StdString.size_t_sub (StdString.size (getUri c)) HOSTING_TAG_SIZE)
            HOSTING_TAG_SIZE HOSTING_TAG = Normal 0 →
          discoverHandler (Some c) w = (Normal tt, admitted c w))).
Proof.
  intros Hlive Hin Ho Hnull.
  assert (Hit : entry_matches w c it = false).
  { unfold entry_matches, entry_descriptor. rewrite Ho. simpl. by rewrite Hnull. }
  destruct (findRemoteResource_spec w c Hlive) as (res & Hfind & Hres).
  exists res. split; [done |]. split.
  - destruct Hres as [[-> _]|[_ Hm]].
    + intros <-. done.
    + intros ->. by rewrite Hit in Hm.
  - intros Hne.
    assert (Hnone : ∀ it', it' ∈ registry w → entry_matches w c it' = false).
    { intros it' Hin'. apply entry_matches_false. intros r Hr. by apply (Hne it'). }
    split.
    + destruct Hres as [[-> _]|[Hin' Hm]]; [done |].
      by rewrite (Hnone res Hin') in Hm.
    + intros Hc. by apply discoverHandler_admits.
Qed.

Lemma findRemoteResource_skips_null_witness :
  ∃ res : HostingObjectPtr,
    findRemoteResource (Some light_hosting) world_with_null_entry
    = (Normal res, world_with_null_entry)
    ∧ res ≠ Some 0%nat
    ∧ ((∀ it' r, it' ∈ registry world_with_null_entry →
                 entry_descriptor world_with_null_entry it' = Some r →
                 ¬ (getAddress r = getAddress light_hosting
                    ∧ getUri r = getUri light_hosting)) →
       res = None
       ∧ (StdString.compare (getUri light_hosting)
            (StdString.size_t_sub (StdString.size (getUri light_hosting)) HOSTING_TAG_SIZE)
            HOSTING_TAG_SIZE HOSTING_TAG = Normal 0 →
          discoverHandler (Some light_hosting) world_with_null_entry
          = (Normal tt, admitted light_hosting world_with_null_entry))).
Proof.
  apply (findRemoteResource_skips_null world_with_null_entry (Some 0%nat) light_hosting
           (mkHostingObject None None)).
  - intros it Hin. vm_compute in Hin.
    apply list_elem_of_singleton in Hin as ->. vm_compute. eauto.
  - vm_compute. left.
  - reflexivity.
  - reflexivity.
Defined.

(* ================================================================== *)
(** * Further properties *)

(** ** The admission gate on any URI *)

Lemma tagged_uri_passes (uri : string) :
  fits_size_t uri → StdString.ends_with uri HOSTING_TAG → hosting_tag_test uri = Normal 0.
Proof.
  intros Hfit Hends.
  assert (Hlen : HOSTING_TAG_SIZE ≤ StdString.size uri).
  { destruct Hends as [p ->]. unfold StdString.size.
    rewrite string_length_append. simpl. unfold HOSTING_TAG_SIZE. lia. }
  destruct (hosting_tag_compare_long uri (conj Hlen Hfit)) as (c & Hc & Hiff).
  unfold hosting_tag_test. rewrite Hc. f_equal. by apply Hiff.
Qed.

Lemma passing_uri_tagged (uri : string) :
  fits_size_t uri → hosting_tag_test uri = Normal 0 → StdString.ends_with uri HOSTING_TAG.
Proof.
  intros Hfit Hc.
  destruct (Z.lt_ge_cases (StdString.size uri) HOSTING_TAG_SIZE) as [Hlt|Hge].
  - unfold hosting_tag_test in Hc. by rewrite hosting_tag_compare_short in Hc.
  - destruct (hosting_tag_compare_long uri (conj Hge Hfit)) as (c & Hc' & Hiff).
    unfold hosting_tag_test in Hc. rewrite Hc' in Hc. apply Hiff. congruence.
Qed.

(** X2. In every state, a candidate whose URI has fewer than eight
    characters makes the handler throw [std::out_of_range]; nothing of the
    state changes. *)
Theorem discoverHandler_short_uri (w : World) (c : RemoteObject) :
  StdString.size (getUri c) < HOSTING_TAG_SIZE →
  discoverHandler (Some c) w = (Throw out_of_range, w)
  ∧ ¬ StdString.ends_with (getUri c) HOSTING_TAG.
Proof.
  intros Hsz. split.
  - unfold discoverHandler. simpl.
    unfold mbind, M_bind, mret, M_ret, lift.
    by rewrite (hosting_tag_compare_short _ Hsz).
  - intros [p Hp]. unfold StdString.size, HOSTING_TAG_SIZE in Hsz.
    rewrite Hp, string_length_append in Hsz. simpl in Hsz. lia.
Qed.

Lemma discoverHandler_short_uri_witness :
  discoverHandler (Some (mkRemoteObject "node-9" "" 0))
                  (run_discoveries [light_hosting] initial_world)
  = (Throw out_of_range, run_discoveries [light_hosting] initial_world)
  ∧ ¬ StdString.ends_with (getUri (mkRemoteObject "node-9" "" 0)) HOSTING_TAG.
Proof.
  apply (discoverHandler_short_uri (run_discoveries [light_hosting] initial_world)
           (mkRemoteObject "node-9" "" 0)).
  vm_compute. reflexivity.
Defined.

(** X3. A candidate that carries the tag and whose address and URI
    equal those of a descriptor already wrapped by a registry entry is
    dropped: the handler returns normally and nothing of the state
    changes, whatever the instance identifiers are. *)
Theorem discoverHandler_drops_duplicate (w : World) (c r : RemoteObject) (it : HostingObjectPtr) :
  registry_live w →
  fits_size_t (getUri c) →
  StdString.ends_with (getUri c) HOSTING_TAG →
  it ∈ registry w →
  entry_descriptor w it = Some r →
  getAddress r = getAddress c →
  getUri r = getUri c →
  discoverHandler (Some c) w = (Normal tt, w).
Proof.
  intros Hlive Hfit Hends Hin Hr Ha Hu.
  apply (discoverHandler_drops_known w c it); [done | | done |].
  - by apply tagged_uri_passes.
  - unfold entry_matches. rewrite Hr. apply same_key_true. done.
Qed.

Lemma discoverHandler_drops_duplicate_witness :
  discoverHandler (Some light_hosting_again) (run_discoveries [light_hosting] initial_world)
  = (Normal tt, run_discoveries [light_hosting] initial_world).
Proof.
  apply (discoverHandler_drops_duplicate (run_discoveries [light_hosting] initial_world)
           light_hosting_again light_hosting (Some 0%nat)).
  - intros it Hin. vm_compute in Hin.
    apply list_elem_of_singleton in Hin as ->. vm_compute. eauto.
  - vm_compute. reflexivity.
  - exists "/a/light". reflexivity.
  - vm_compute. left.
  - vm_compute. reflexivity.
  - reflexivity.
  - reflexivity.
Defined.

(** X4. Admission, for any tagged URI: when no registry entry wraps a
    descriptor with the candidate's address and URI, the handler returns
    normally having appended one entry, a pointer that was not in use, to
    a hosting object that wraps the candidate and whose termination
    callback is bound to that same pointer; the older entries and objects,
    the issued calls and the output are as before. *)
Theorem discoverHandler_admits_tagged (w : World) (c : RemoteObject) :
  registry_live w →
  fits_size_t (getUri c) →
  StdString.ends_with (getUri c) HOSTING_TAG →
  (∀ it r, it ∈ registry w → entry_descriptor w it = Some r →
           ¬ (getAddress r = getAddress c ∧ getUri r = getUri c)) →
  ∃ (p : loc) (w' : World),
    discoverHandler (Some c) w = (Normal tt, w')
    ∧ heap w !! p = None
    ∧ registry w' = registry w ++ [Some p]
    ∧ heap w' = <[p := mkHostingObject (Some c) (Some (bind_destroyedHostingObject (Some p)))]> (heap w)
    ∧ calls w' = calls w ∧ cout w' = cout w
    ∧ presenceHandle (this w') = presenceHandle (this w).
Proof.
  intros Hlive Hfit Hends Hnone.
  exists (fresh (dom (heap w))), (admitted c w).
  split; [|by repeat split; try apply fresh_heap].
  apply discoverHandler_admits; [done | by apply tagged_uri_passes |].
  intros it Hin. apply entry_matches_false. intros r Hr. by apply (Hnone it).
Qed.

Lemma discoverHandler_admits_tagged_witness :
  ∃ (p : loc) (w' : World),
    discoverHandler (Some fan_hosting) (run_discoveries [light_hosting] initial_world)
    = (Normal tt, w')
    ∧ heap (run_discoveries [light_hosting] initial_world) !! p = None
    ∧ registry w' = registry (run_discoveries [light_hosting] initial_world) ++ [Some p]
    ∧ heap w'
      = <[p := mkHostingObject (Some fan_hosting) (Some (bind_destroyedHostingObject (Some p)))]>
          (heap (run_discoveries [light_hosting] initial_world))
    ∧ calls w' = calls (run_discoveries [light_hosting] initial_world)
    ∧ cout w' = cout (run_discoveries [light_hosting] initial_world)
    ∧ presenceHandle (this w')
      = presenceHandle (this (run_discoveries [light_hosting] initial_world)).
Proof.
  apply (discoverHandler_admits_tagged (run_discoveries [light_hosting] initial_world) fan_hosting).
  - intros it Hin. vm_compute in Hin.
    apply list_elem_of_singleton in Hin as ->. vm_compute. eauto.
  - vm_compute. reflexivity.
  - exists "/a/fan". reflexivity.
  - intros it r Hin. vm_compute in Hin.
    apply list_elem_of_singleton in Hin as ->. vm_compute.
    intros [= <-] [_ Hu]. discriminate Hu.
Defined.

(** ** The four outcomes of the handler *)

Lemma discoverHandler_test_throws (w : World) (c : RemoteObject) (e : exception) :
  hosting_tag_test (getUri c) = Throw e → discoverHandler (Some c) w = (Throw e, w).
Proof.
  unfold hosting_tag_test. intros Hc. unfold discoverHandler. simpl.
  unfold mbind, M_bind, mret, M_ret, lift. by rewrite Hc.
Qed.

Lemma discoverHandler_filtered (w : World) (c : RemoteObject) (z : Z) :
  hosting_tag_test (getUri c) = Normal z → z ≠ 0 →
  discoverHandler (Some c) w = (Normal tt, w).
Proof.
  unfold hosting_tag_test. intros Hc Hz. unfold discoverHandler. simpl.
  unfold mbind, M_bind, mret, M_ret, lift. rewrite Hc.
  by destruct (Z.eqb_spec z 0).
Qed.

Lemma hosting_tag_test_defined (uri : string) : hosting_tag_test uri ≠ Undefined.
Proof.
  unfold hosting_tag_test, StdString.compare. by destruct (_ <? _).
Qed.

Lemma discoverHandler_outcomes (w : World) (c : RemoteObject) :
  registry_live w →
  (∃ e, hosting_tag_test (getUri c) = Throw e
        ∧ discoverHandler (Some c) w = (Throw e, w))
  ∨ (∃ z, hosting_tag_test (getUri c) = Normal z ∧ z ≠ 0
          ∧ discoverHandler (Some c) w = (Normal tt, w))
  ∨ (hosting_tag_test (getUri c) = Normal 0
     ∧ (∃ it, it ∈ registry w ∧ entry_matches w c it = true)
     ∧ discoverHandler (Some c) w = (Normal tt, w))
  ∨ (hosting_tag_test (getUri c) = Normal 0
     ∧ (∀ it, it ∈ registry w → entry_matches w c it = false)
     ∧ discoverHandler (Some c) w = (Normal tt, admitted c w)).
Proof.
  intros Hlive.
  destruct (hosting_tag_test (getUri c)) as [z|e|] eqn:Hc.
  - destruct (decide (z = 0)) as [->|Hz].
    + destruct (findRemoteResource_spec w c Hlive) as (res & Hfind & [[-> Hnone]|[Hin Hm]]).
      * right; right; right. split; [done |]. split; [done |].
        by apply discoverHandler_admits.
      * right; right; left. split; [done |]. split; [by exists res |].
        by apply (discoverHandler_drops_known w c res).
    + right; left. exists z. split; [done |]. split; [done |].
      by apply (discoverHandler_filtered w c z).
  - left. exists e. split; [done |]. by apply discoverHandler_test_throws.
  - by apply hosting_tag_test_defined in Hc.
Qed.

Lemma admitted_live (w : World) (c : RemoteObject) :
  registry_live w → registry_live (admitted c w).
Proof.
  intros Hlive it Hin.
  change (registry (admitted c w)) with (registry w ++ [Some (fresh (dom (heap w)))]) in Hin.
  apply elem_of_app in Hin as [Hin|Hin].
  - destruct (Hlive it Hin) as [o Ho]. exists o.
    destruct it as [p|]; [|done]. simpl in *.
    rewrite lookup_insert_ne; [done |]. intros <-. by rewrite fresh_heap in Ho.
  - apply list_elem_of_singleton in Hin as ->. simpl.
    rewrite lookup_insert_eq. eauto.
Qed.

Lemma entry_matches_same_key (w : World) (c c' : RemoteObject) (it : HostingObjectPtr) :
  getAddress c' = getAddress c → getUri c' = getUri c →
  entry_matches w c' it = entry_matches w c it.
Proof.
  intros Ha Hu. unfold entry_matches, same_key.
  destruct (entry_descriptor w it); [|done]. by rewrite Ha, Hu.
Qed.

(** X5. Admission is idempotent on the dedup key: after the handler has
    run on a candidate, running it again on a candidate with the same
    address and URI (whatever its instance identifier) changes nothing,
    and ends the way the first run ended. *)
Theorem discoverHandler_twice (w : World) (c c' : RemoteObject) :
  registry_live w →
  getAddress c' = getAddress c →
  getUri c' = getUri c →
  discoverHandler (Some c') (discoverHandler (Some c) w).2
  = ((discoverHandler (Some c) w).1, (discoverHandler (Some c) w).2).
Proof.
  intros Hlive Ha Hu.
  destruct (discoverHandler_outcomes w c Hlive)
    as [(e & Hc & ->)|[(z & Hc & Hz & ->)|[(Hc & (it & Hin & Hm) & ->)|(Hc & Hnone & ->)]]];
    simpl.
  - apply discoverHandler_test_throws. by rewrite Hu.
  - apply (discoverHandler_filtered w c' z); [by rewrite Hu | done].
  - apply (discoverHandler_drops_known w c' it); [done | by rewrite Hu | done |].
    by rewrite (entry_matches_same_key w c c').
  - apply (discoverHandler_drops_known (admitted c w) c' (Some (fresh (dom (heap w))))).
    + by apply admitted_live.
    + by rewrite Hu.
    + change (registry (admitted c w)) with (registry w ++ [Some (fresh (dom (heap w)))]).
      apply elem_of_app. right. by apply list_elem_of_singleton.
    + unfold entry_matches. rewrite admitted_new_entry.
      apply same_key_true. done.
Qed.

Lemma discoverHandler_twice_witness :
  discoverHandler (Some light_hosting_again) (discoverHandler (Some light_hosting) initial_world).2
  = ((discoverHandler (Some light_hosting) initial_world).1,
     (discoverHandler (Some light_hosting) initial_world).2).
Proof.
  apply (discoverHandler_twice initial_world light_hosting light_hosting_again).
  - intros it Hin. vm_compute in Hin. by apply elem_of_nil in Hin.
  - reflexivity.
  - reflexivity.
Defined.

(** X7. The handler never removes, replaces or reorders entries: the
    registry before is a prefix of the registry after, at most one entry
    longer; the hosting objects that existed are untouched; no call is
    issued, nothing is printed and the subscription handle is as
    before. *)
Theorem discoverHandler_keeps_entries (w : World) (c : RemoteObject) :
  registry_live w →
  registry w `prefix_of` registry (discoverHandler (Some c) w).2
  ∧ (length (registry (discoverHandler (Some c) w).2) ≤ S (length (registry w)))%nat
  ∧ (∀ p o, heap w !! p = Some o → heap (discoverHandler (Some c) w).2 !! p = Some o)
  ∧ calls (discoverHandler (Some c) w).2 = calls w
  ∧ cout (discoverHandler (Some c) w).2 = cout w
  ∧ presenceHandle (this (discoverHandler (Some c) w).2) = presenceHandle (this w).
Proof.
  intros Hlive.
  destruct (discoverHandler_cases w c Hlive) as [->|[->|[_ ->]]]; simpl.
  - repeat split; auto.
  - repeat split; auto.
  - change (registry (admitted c w)) with (registry w ++ [Some (fresh (dom (heap w)))]).
    split; [by apply prefix_app_r |]. split; [rewrite length_app; simpl; lia |].
    split; [|done].
    intros p o Hp. rewrite lookup_insert_ne; [done |].
    intros <-. by rewrite fresh_heap in Hp.
Qed.

Lemma discoverHandler_keeps_entries_witness :
  registry (run_discoveries [light_hosting] initial_world)
    `prefix_of` registry (discoverHandler (Some fan_hosting)
                            (run_discoveries [light_hosting] initial_world)).2
  ∧ (length (registry (discoverHandler (Some fan_hosting)
                         (run_discoveries [light_hosting] initial_world)).2)
     ≤ S (length (registry (run_discoveries [light_hosting] initial_world))))%nat
  ∧ (∀ p o, heap (run_discoveries [light_hosting] initial_world) !! p = Some o →
            heap (discoverHandler (Some fan_hosting)
                    (run_discoveries [light_hosting] initial_world)).2 !! p = Some o)
  ∧ calls (discoverHandler (Some fan_hosting)
             (run_discoveries [light_hosting] initial_world)).2
    = calls (run_discoveries [light_hosting] initial_world)
  ∧ cout (discoverHandler (Some fan_hosting)
            (run_discoveries [light_hosting] initial_world)).2
    = cout (run_discoveries [light_hosting] initial_world)
  ∧ presenceHandle (this (discoverHandler (Some fan_hosting)
                            (run_discoveries [light_hosting] initial_world)).2)
    = presenceHandle (this (run_discoveries [light_hosting] initial_world)).
Proof.
  apply (discoverHandler_keeps_entries (run_discoveries [light_hosting] initial_world)
           fan_hosting).
  intros it Hin. vm_compute in Hin.
  apply list_elem_of_singleton in Hin as ->. vm_compute. eauto.
Defined.

(** ** What the registry holds *)

Lemma hosted_satisfy_live (Q : RemoteObject → Prop) (w : World) :
  hosted_satisfy Q w → registry_live w.
Proof.
  intros HQ it Hin. destruct (HQ it Hin) as (r & Hr & _).
  unfold entry_descriptor in Hr. by destruct (entry_object w it).
Qed.

Lemma hosted_satisfy_frame (Q : RemoteObject → Prop) (w w' : World) :
  registry w' = registry w → heap w' = heap w →
  hosted_satisfy Q w → hosted_satisfy Q w'.
Proof.
  intros Hreg Hheap HQ it Hin. rewrite Hreg in Hin.
  destruct (HQ it Hin) as (r & Hr & Hq). exists r. split; [|done].
  unfold entry_descriptor, entry_object in *. by rewrite Hheap.
Qed.

Lemma hosted_satisfy_mono (Q Q' : RemoteObject → Prop) (w : World) :
  (∀ r, Q r → Q' r) → hosted_satisfy Q w → hosted_satisfy Q' w.
Proof.
  intros Himp HQ it Hin. destruct (HQ it Hin) as (r & Hr & Hq). eauto.
Qed.

Lemma discoverHandler_hosted_satisfy (Q : RemoteObject → Prop) (w : World) (c : RemoteObject) :
  (hosting_tag_test (getUri c) = Normal 0 → Q c) →
  hosted_satisfy Q w → hosted_satisfy Q (discoverHandler (Some c) w).2.
Proof.
  intros Hc HQ.
  pose proof (hosted_satisfy_live Q w HQ) as Hlive.
  destruct (discoverHandler_outcomes w c Hlive)
    as [(e & _ & ->)|[(z & _ & _ & ->)|[(_ & _ & ->)|(Htest & _ & ->)]]]; simpl; try done.
  intros it Hin.
  change (registry (admitted c w)) with (registry w ++ [Some (fresh (dom (heap w)))]) in Hin.
  apply elem_of_app in Hin as [Hin|Hin].
  - rewrite admitted_old_entry; [by apply HQ | by apply Hlive].
  - apply list_elem_of_singleton in Hin as ->. rewrite admitted_new_entry. eauto.
Qed.

Lemma destroyedHostingObject_hosted_satisfy (Q : RemoteObject → Prop) (w : World)
    (destroyedPtr : HostingObjectPtr) :
  hosted_satisfy Q w → hosted_satisfy Q (destroyedHostingObject destroyedPtr w).2.
Proof.
  intros HQ. rewrite destroyedHostingObject_unfold.
  destruct (std_find _ _) as [i|]; [|done]. simpl.
  intros it Hin. unfold registry in Hin. simpl in Hin.
  apply list_elem_of_delete_inv in Hin. by apply HQ in Hin.
Qed.

Lemma run_hosted_satisfy {env : Environment} (es : list Event) (cs : list RemoteObject)
    (w : World) :
  Forall (λ c, fits_size_t (getUri c)) (discovered es) →
  hosted_satisfy (λ r, r ∈ cs ∧ StdString.ends_with (getUri r) HOSTING_TAG) w →
  hosted_satisfy (λ r, r ∈ cs ++ discovered es ∧ StdString.ends_with (getUri r) HOSTING_TAG)
                 (run es w).
Proof.
  revert cs w. induction es as [|e es IH]; intros cs w Hfit HQ.
  - simpl. by rewrite app_nil_r.
  - assert (Hstep : hosted_satisfy
        (λ r, r ∈ cs ++ discovered [e] ∧ StdString.ends_with (getUri r) HOSTING_TAG)
        (handle e w).2).
    { assert (HQ' : hosted_satisfy
          (λ r, r ∈ cs ++ discovered [e] ∧ StdString.ends_with (getUri r) HOSTING_TAG) w).
      { eapply hosted_satisfy_mono; [|exact HQ].
        intros r [Hin Hends]. split; [|done]. apply elem_of_app. by left. }
      destruct e as [| |ret seq address|c|p]; simpl.
      - destruct (startHosting_frame w). by apply (hosted_satisfy_frame _ w).
      - destruct (stopHosting_frame w). by apply (hosted_satisfy_frame _ w).
      - destruct (presenceHandler_frame ret seq address w).
        by apply (hosted_satisfy_frame _ w).
      - apply discoverHandler_hosted_satisfy; [|done].
        intros Htest. split.
        + apply elem_of_app. right. simpl. by left.
        + apply passing_uri_tagged; [|done].
          simpl in Hfit. by apply Forall_cons in Hfit as [Hfit _].
      - by apply destroyedHostingObject_hosted_satisfy. }
    change (run (e :: es) w) with (run es (handle e w).2).
    assert (Hfit' : Forall (λ c, fits_size_t (getUri c)) (discovered es)).
    { destruct e; simpl in Hfit; try done. by apply Forall_cons in Hfit as [_ Hfit]. }
    specialize (IH _ _ Hfit' Hstep).
    eapply hosted_satisfy_mono; [|exact IH].
    intros r [Hin Hends]. split; [|done].
    replace (discovered (e :: es)) with (discovered [e] ++ discovered es)
      by (by destruct e).
    by rewrite app_assoc.
Qed.

(** X6. Only tagged candidates are hosted: in every state the
    coordinator reaches from its initial state, whatever the environment
    and the events, every registry entry wraps a descriptor that one of
    the discovery callbacks delivered and whose URI ends with
    ["/hosting"]. *)
Theorem hosted_are_tagged_candidates {env : Environment} (es : list Event)
    (it : HostingObjectPtr) :
  Forall (λ c, fits_size_t (getUri c)) (discovered es) →
  it ∈ registry (run es initial_world) →
  ∃ r : RemoteObject,
    entry_descriptor (run es initial_world) it = Some r
    ∧ r ∈ discovered es
    ∧ StdString.ends_with (getUri r) HOSTING_TAG.
Proof.
  intros Hfit Hin.
  assert (H0 : hosted_satisfy
            (λ r, r ∈ [] ∧ StdString.ends_with (getUri r) HOSTING_TAG) initial_world).
  { intros it' Hin'. by apply elem_of_nil in Hin'. }
  destruct (run_hosted_satisfy es [] initial_world Hfit H0 it Hin) as (r & Hr & Hcs & Hends).
  exists r. done.
Qed.

Lemma hosted_are_tagged_candidates_witness :
  ∃ r : RemoteObject,
    entry_descriptor
      (run (env := quiet_env)
           [ev_discovered short_uri; ev_startHosting; ev_discovered light_hosting;
            ev_presence OC_STACK_OK 1 "node-9"]
           initial_world)
      (Some 0%nat) = Some r
    ∧ r ∈ discovered [ev_discovered short_uri; ev_startHosting; ev_discovered light_hosting;
                       ev_presence OC_STACK_OK 1 "node-9"]
    ∧ StdString.ends_with (getUri r) HOSTING_TAG.
Proof.
  apply (hosted_are_tagged_candidates (env := quiet_env)
           [ev_discovered short_uri; ev_startHosting; ev_discovered light_hosting;
            ev_presence OC_STACK_OK 1 "node-9"] (Some 0%nat)).
  - repeat constructor; vm_compute; reflexivity.
  - vm_compute. left.
Defined.

(** ** Removal, exactly *)

Lemma std_find_cons (x destroyedPtr : HostingObjectPtr) (l : list HostingObjectPtr) :
  std_find (x :: l) destroyedPtr
  = if decide (x = destroyedPtr) then Some 0%nat else S <$> std_find l destroyedPtr.
Proof.
  unfold std_find. simpl. case_decide; [done |].
  by destruct (list_find _ l) as [[i y]|].
Qed.

Lemma filter_absent (destroyedPtr : HostingObjectPtr) (l : list HostingObjectPtr) :
  destroyedPtr ∉ l → filter (λ it, it ≠ destroyedPtr) l = l.
Proof.
  intros Hnot. induction l as [|x l IH]; [done |].
  apply not_elem_of_cons in Hnot as [Hne Hnot].
  rewrite filter_cons, decide_True by done. by rewrite IH.
Qed.

Lemma erase_found_filter (destroyedPtr : HostingObjectPtr) (l : list HostingObjectPtr) :
  NoDup l →
  match std_find l destroyedPtr with
  | Some i => delete i l
  | None => l
  end = filter (λ it, it ≠ destroyedPtr) l.
Proof.
  induction l as [|x l IH]; intros Hnd; [done |].
  apply NoDup_cons in Hnd as [Hx Hnd].
  rewrite std_find_cons, filter_cons.
  destruct (decide (x = destroyedPtr)) as [->|Hne].
  - rewrite decide_False by (intros Hc; by apply Hc).
    simpl. by rewrite filter_absent.
  - rewrite decide_True by done. specialize (IH Hnd).
    destruct (std_find l destroyedPtr) as [i|]; simpl; by rewrite <- IH.
Qed.

(** X8. Removal takes out the target and nothing else: from a registry
    in which no pointer occurs twice, the registry afterwards is the
    registry before without the target, the other entries in their order;
    the hosting objects, the issued calls and the subscription handle are
    as before, and one line is printed exactly when the target was
    there. *)
Theorem destroyedHostingObject_exact (w : World) (destroyedPtr : HostingObjectPtr) :
  NoDup (registry w) →
  registry (destroyedHostingObject destroyedPtr w).2
  = filter (λ it, it ≠ destroyedPtr) (registry w)
  ∧ heap (destroyedHostingObject destroyedPtr w).2 = heap w
  ∧ calls (destroyedHostingObject destroyedPtr w).2 = calls w
  ∧ presenceHandle (this (destroyedHostingObject destroyedPtr w).2) = presenceHandle (this w)
  ∧ cout (destroyedHostingObject destroyedPtr w).2
    = cout w ++ (if decide (destroyedPtr ∈ registry w)
                 then [("destroy hosting object." +:+ newline)%string] else []).
Proof.
  intros Hnd.
  pose proof (erase_found_filter destroyedPtr (registry w) Hnd) as Hfilter.
  rewrite destroyedHostingObject_unfold.
  destruct (std_find (registry w) destroyedPtr) as [i|] eqn:Hfind; simpl.
  - split; [exact Hfilter |]. repeat split.
    rewrite decide_True; [done |].
    unfold std_find in Hfind.
    destruct (list_find _ _) as [[j it]|] eqn:Hlf; [|done].
    apply list_find_Some in Hlf as (Hj & -> & _). by eapply list_elem_of_lookup_2.
  - split; [exact Hfilter |]. repeat split.
    rewrite decide_False; [by rewrite app_nil_r |].
    unfold std_find in Hfind.
    destruct (list_find _ _) as [[j it]|] eqn:Hlf; [done |].
    apply list_find_None in Hlf. rewrite Forall_forall in Hlf.
    intros Hin. by apply (Hlf _ Hin).
Qed.

Lemma destroyedHostingObject_exact_witness :
  registry (destroyedHostingObject (Some 0%nat)
              (run_discoveries [light_hosting; fan_hosting] initial_world)).2
  = filter (λ it, it ≠ Some 0%nat)
           (registry (run_discoveries [light_hosting; fan_hosting] initial_world))
  ∧ heap (destroyedHostingObject (Some 0%nat)
            (run_discoveries [light_hosting; fan_hosting] initial_world)).2
    = heap (run_discoveries [light_hosting; fan_hosting] initial_world)
  ∧ calls (destroyedHostingObject (Some 0%nat)
             (run_discoveries [light_hosting; fan_hosting] initial_world)).2
    = calls (run_discoveries [light_hosting; fan_hosting] initial_world)
  ∧ presenceHandle (this (destroyedHostingObject (Some 0%nat)
                            (run_discoveries [light_hosting; fan_hosting] initial_world)).2)
    = presenceHandle (this (run_discoveries [light_hosting; fan_hosting] initial_world))
  ∧ cout (destroyedHostingObject (Some 0%nat)
            (run_discoveries [light_hosting; fan_hosting] initial_world)).2
    = cout (run_discoveries [light_hosting; fan_hosting] initial_world)
      ++ (if decide (Some 0%nat ∈ registry (run_discoveries [light_hosting; fan_hosting]
                                              initial_world))
          then [("destroy hosting object." +:+ newline)%string] else []).
Proof.
  apply (destroyedHostingObject_exact
           (run_discoveries [light_hosting; fan_hosting] initial_world) (Some 0%nat)).
  vm_compute. repeat constructor; intros Hin; inversion Hin; subst;
    match goal with H : _ ∈ _ |- _ => inversion H end.
Defined.

(** ** Admission and the termination callback *)

Lemma std_find_last (l : list HostingObjectPtr) (destroyedPtr : HostingObjectPtr) :
  destroyedPtr ∉ l → std_find (l ++ [destroyedPtr]) destroyedPtr = Some (length l).
Proof.
  induction l as [|x l IH]; intros Hnot.
  - rewrite app_nil_l, std_find_cons. by rewrite decide_True.
  - apply not_elem_of_cons in Hnot as [Hne Hnot].
    change ((x :: l) ++ [destroyedPtr]) with (x :: (l ++ [destroyedPtr])).
    rewrite std_find_cons, decide_False by done. by rewrite IH.
Qed.

Lemma delete_last (l : list HostingObjectPtr) (x : HostingObjectPtr) :
  delete (length l) (l ++ [x]) = l.
Proof. induction l as [|y l IH]; [done |]. simpl. by rewrite IH. Qed.

(** The state after the callback of a mirror that was just admitted. *)
Lemma destroyed_after_admitted (w : World) (c : RemoteObject) :
  registry_live w →
  destroyedHostingObject (Some (fresh (dom (heap w)))) (admitted c w)
  = (Normal tt,
     mkWorld (this w) (heap (admitted c w)) (calls w)
             (cout w ++ [("destroy hosting object." +:+ newline)%string])).
Proof.
  intros Hlive. rewrite destroyedHostingObject_unfold.
  change (registry (admitted c w)) with (registry w ++ [Some (fresh (dom (heap w)))]).
  rewrite std_find_last by (by apply fresh_not_in_registry).
  rewrite delete_last. f_equal.
  unfold admitted, set_hostingObjectList, registry. simpl.
  by destruct w as [[]].
Qed.

(** X9. The termination callback armed at admission removes the mirror
    it was armed for: once the handler has admitted a candidate, calling
    the callback stored in the new hosting object returns normally,
    prints one line and leaves the coordinator object, registry included,
    as it was before the admission, while the hosting object itself
    stays. *)
Theorem termination_callback_undoes_admission (w : World) (c : RemoteObject) :
  registry_live w →
  fits_size_t (getUri c) →
  StdString.ends_with (getUri c) HOSTING_TAG →
  (∀ it r, it ∈ registry w → entry_descriptor w it = Some r →
           ¬ (getAddress r = getAddress c ∧ getUri r = getUri c)) →
  ∃ (p : loc) (o : HostingObject) (cb : DestroyedCallback) (w1 w2 : World),
    discoverHandler (Some c) w = (Normal tt, w1)
    ∧ registry w1 = registry w ++ [Some p]
    ∧ heap w1 !! p = Some o
    ∧ remoteObject o = Some c
    ∧ pDestroyCB o = Some cb
    ∧ invoke_DestroyedCallback cb w1 = (Normal tt, w2)
    ∧ this w2 = this w
    ∧ heap w2 = heap w1
    ∧ calls w2 = calls w
    ∧ cout w2 = cout w ++ [("destroy hosting object." +:+ newline)%string].
Proof.
  intros Hlive Hfit Hends Hnone.
  exists (fresh (dom (heap w))),
         (mkHostingObject (Some c)
            (Some (bind_destroyedHostingObject (Some (fresh (dom (heap w))))))),
         (bind_destroyedHostingObject (Some (fresh (dom (heap w))))),
         (admitted c w).
  eexists. split; [|split; [|split; [|split; [|split; [|split]]]]].
  - apply discoverHandler_admits; [done | by apply tagged_uri_passes |].
    intros it Hin. apply entry_matches_false. intros r Hr. by apply (Hnone it).
  - reflexivity.
  - unfold admitted. simpl. by rewrite lookup_insert_eq.
  - reflexivity.
  - reflexivity.
  - simpl. by apply destroyed_after_admitted.
  - done.
Qed.

Lemma termination_callback_undoes_admission_witness :
  ∃ (p : loc) (o : HostingObject) (cb : DestroyedCallback) (w1 w2 : World),
    discoverHandler (Some light_hosting) initial_world = (Normal tt, w1)
    ∧ registry w1 = registry initial_world ++ [Some p]
    ∧ heap w1 !! p = Some o
    ∧ remoteObject o = Some light_hosting
    ∧ pDestroyCB o = Some cb
    ∧ invoke_DestroyedCallback cb w1 = (Normal tt, w2)
    ∧ this w2 = this initial_world
    ∧ heap w2 = heap w1
    ∧ calls w2 = calls initial_world
    ∧ cout w2 = cout initial_world ++ [("destroy hosting object." +:+ newline)%string].
Proof.
  apply (termination_callback_undoes_admission initial_world light_hosting).
  - intros it Hin. vm_compute in Hin. by apply elem_of_nil in Hin.
  - vm_compute. reflexivity.
  - exists "/a/light". reflexivity.
  - intros it r Hin. vm_compute in Hin. by apply elem_of_nil in Hin.
Defined.

(** X10. A resource whose mirror was removed can be hosted again: after
    a candidate was admitted and its mirror removed, the handler admits
    the same candidate once more, in a new hosting object at an address
    different from the first one. *)
Theorem discoverHandler_readmits_after_removal (w : World) (c : RemoteObject) :
  registry_live w →
  fits_size_t (getUri c) →
  StdString.ends_with (getUri c) HOSTING_TAG →
  (∀ it r, it ∈ registry w → entry_descriptor w it = Some r →
           ¬ (getAddress r = getAddress c ∧ getUri r = getUri c)) →
  ∃ (p p' : loc) (w1 w2 w3 : World),
    discoverHandler (Some c) w = (Normal tt, w1)
    ∧ registry w1 = registry w ++ [Some p]
    ∧ destroyedHostingObject (Some p) w1 = (Normal tt, w2)
    ∧ registry w2 = registry w
    ∧ discoverHandler (Some c) w2 = (Normal tt, w3)
    ∧ registry w3 = registry w ++ [Some p']
    ∧ p' ≠ p
    ∧ entry_descriptor w3 (Some p') = Some c.
Proof.
  intros Hlive Hfit Hends Hnone.
  set (p := fresh (dom (heap w))).
  set (w2 := mkWorld (this w) (heap (admitted c w)) (calls w)
                     (cout w ++ [("destroy hosting object." +:+ newline)%string])).
  assert (Hold : ∀ it, it ∈ registry w → entry_descriptor w2 it = entry_descriptor w it).
  { intros it Hin. by apply (admitted_old_entry w c it), Hlive. }
  assert (Hlive2 : registry_live w2).
  { intros it Hin. apply (admitted_live w c Hlive).
    change (registry (admitted c w)) with (registry w ++ [Some p]).
    apply elem_of_app. by left. }
  exists p, (fresh (dom (heap w2))), (admitted c w), w2, (admitted c w2).
  split; [|split; [|split; [|split; [|split; [|split; [|split]]]]]].
  - apply discoverHandler_admits; [done | by apply tagged_uri_passes |].
    intros it Hin. apply entry_matches_false. intros r Hr. by apply (Hnone it).
  - reflexivity.
  - by apply destroyed_after_admitted.
  - reflexivity.
  - apply discoverHandler_admits; [done | by apply tagged_uri_passes |].
    intros it Hin. apply entry_matches_false. intros r Hr.
    apply (Hnone it); [done |]. by rewrite <- Hold.
  - reflexivity.
  - intros Heq. pose proof (fresh_heap w2) as Hfresh. rewrite Heq in Hfresh.
    unfold w2, admitted in Hfresh. simpl in Hfresh.
    by rewrite lookup_insert_eq in Hfresh.
  - apply admitted_new_entry.
Qed.

Lemma discoverHandler_readmits_after_removal_witness :
  ∃ (p p' : loc) (w1 w2 w3 : World),
    discoverHandler (Some light_hosting) initial_world = (Normal tt, w1)
    ∧ registry w1 = registry initial_world ++ [Some p]
    ∧ destroyedHostingObject (Some p) w1 = (Normal tt, w2)
    ∧ registry w2 = registry initial_world
    ∧ discoverHandler (Some light_hosting) w2 = (Normal tt, w3)
    ∧ registry w3 = registry initial_world ++ [Some p']
    ∧ p' ≠ p
    ∧ entry_descriptor w3 (Some p') = Some light_hosting.
Proof.
  apply (discoverHandler_readmits_after_removal initial_world light_hosting).
  - intros it Hin. vm_compute in Hin. by apply elem_of_nil in Hin.
  - vm_compute. reflexivity.
  - exists "/a/light". reflexivity.
  - intros it r Hin. vm_compute in Hin. by apply elem_of_nil in Hin.
Defined.

(** ** Liveness events *)

(** X11. A liveness event never touches the coordinator object, the
    hosting objects or the output, whatever its result class: departure
    and error classes evict nothing.  The only effect is at most one
    call, a discovery query to the origin address. *)
Theorem presenceHandler_changes_nothing {env : Environment}
    (ret : OCStackResult) (seq : Z) (address : string) (w : World) :
  this (presenceHandler ret seq address w).2 = this w
  ∧ heap (presenceHandler ret seq address w).2 = heap w
  ∧ cout (presenceHandler ret seq address w).2 = cout w
  ∧ (calls (presenceHandler ret seq address w).2 = calls w
     ∨ ∃ uri ct cb,
         calls (presenceHandler ret seq address w).2
         = calls w ++ [DiscoverResource address uri ct cb]).
Proof.
  assert (Hreq : this (requestDiscovery address w).2 = this w
    ∧ heap (requestDiscovery address w).2 = heap w
    ∧ cout (requestDiscovery address w).2 = cout w
    ∧ (calls (requestDiscovery address w).2 = calls w
       ∨ ∃ uri ct cb,
           calls (requestDiscovery address w).2
           = calls w ++ [DiscoverResource address uri ct cb])).
  { unfold requestDiscovery, DiscoveryManager_discoverResource. unfold_M.
    destruct (discoveryManager (this w)); simpl; [|by auto].
    destruct (discover_throws _ _ _ _); simpl; repeat split; eauto. }
  destruct ret; simpl; try exact Hreq; by auto.
Qed.

(** X12. For the result classes that trigger a discovery, the handler
    ends the way the discovery call ends: an exception thrown by
    [discoverResource] leaves the handler unchanged, nothing catches
    it. *)
Theorem presenceHandler_propagates {env : Environment}
    (ret : OCStackResult) (seq : Z) (address : string) (w : World) :
  discoveryManager (this w) ≠ None →
  present_or_announcing ret →
  (presenceHandler ret seq address w).1
  = match discover_throws (calls w) address
            (OC_MULTICAST_DISCOVERY_URI +:+ hosting_type_filter) CT_DEFAULT with
    | Some e => Throw e
    | None => Normal tt
    end.
Proof.
  intros Hdm Hret.
  assert (Hreq : (requestDiscovery address w).1
    = match discover_throws (calls w) address
              (OC_MULTICAST_DISCOVERY_URI +:+ hosting_type_filter) CT_DEFAULT with
      | Some e => Throw e
      | None => Normal tt
      end).
  { unfold requestDiscovery, DiscoveryManager_discoverResource, hosting_type_filter. unfold_M.
    destruct (discoveryManager (this w)); [|done]. simpl.
    by destruct (discover_throws _ _ _ _). }
  destruct Hret as [-> | [-> | ->]]; exact Hreq.
Qed.

Lemma presenceHandler_propagates_witness :
  (presenceHandler (env := failing_discovery_env (PlatformException 255))
                   OC_STACK_RESOURCE_CREATED 3 "node-9" initial_world).1
  = Throw (PlatformException 255).
Proof.
  apply (presenceHandler_propagates (env := failing_discovery_env (PlatformException 255))
           OC_STACK_RESOURCE_CREATED 3 "node-9" initial_world).
  - simpl. discriminate.
  - right. right. reflexivity.
Defined.

(** ** Starting and stopping *)

(** X13. When neither collaborator throws, [startHosting()] returns
    normally having issued exactly two calls, the subscription to the
    multicast presence address and then the discovery sweep with the
    hosting type filter; the handle is Subscribed, and the registry, the
    hosting objects and the output are as before. *)
Theorem startHosting_success {env : Environment} (w : World) :
  discoveryManager (this w) ≠ None →
  subscribe_throws (calls w) ("coap://" +:+ OC_MULTICAST_PREFIX) CT_DEFAULT = None →
  discover_throws
    (calls w ++ [SubscribePresence ("coap://" +:+ OC_MULTICAST_PREFIX) CT_DEFAULT
                                   (pPresenceCB (this w))])
    requestDiscovery_default_address
    (OC_MULTICAST_DISCOVERY_URI +:+ hosting_type_filter) CT_DEFAULT = None →
  startHosting w
  = (Normal tt,
     mkWorld (set_presenceHandle (mkPresenceSubscriber true) (this w)) (heap w)
       (calls w
        ++ [SubscribePresence ("coap://" +:+ OC_MULTICAST_PREFIX) CT_DEFAULT
                              (pPresenceCB (this w));
            DiscoverResource requestDiscovery_default_address
                             (OC_MULTICAST_DISCOVERY_URI +:+ hosting_type_filter)
                             CT_DEFAULT (pDiscoveryCB (this w))])
       (cout w)).
Proof.
  intros Hdm Hsub Hdisc.
  unfold startHosting, requestMulticastPresence, requestMulticastDiscovery, requestDiscovery,
    try_catch, PresenceSubscriber_new, DiscoveryManager_discoverResource, hosting_type_filter
    in *.
  unfold_M. rewrite Hsub. simpl.
  destruct (discoveryManager (this w)); [|done]. simpl.
  rewrite Hdisc. simpl. by rewrite <- app_assoc.
Qed.

Lemma startHosting_success_witness :
  startHosting (env := quiet_env) initial_world
  = (Normal tt,
     mkWorld (set_presenceHandle (mkPresenceSubscriber true) (this initial_world))
       (heap initial_world)
       (calls initial_world
        ++ [SubscribePresence
              ("coap://" +:+ OC_MULTICAST_PREFIX (Environment := quiet_env)) CT_DEFAULT
              (pPresenceCB (this initial_world));
            DiscoverResource (requestDiscovery_default_address (Environment := quiet_env))
              (OC_MULTICAST_DISCOVERY_URI (Environment := quiet_env) +:+ hosting_type_filter)
              CT_DEFAULT (pDiscoveryCB (this initial_world))])
       (cout initial_world)).
Proof.
  apply (startHosting_success (env := quiet_env) initial_world).
  - simpl. discriminate.
  - reflexivity.
  - reflexivity.
Defined.

(** X14. When the subscription succeeds and the discovery sweep throws,
    [startHosting()] throws that exception, of whatever class, and the
    subscription is not undone: the handle stays Subscribed and no
    unsubscribe call is issued. *)
Theorem startHosting_discovery_failure {env : Environment} (w : World) (e : exception) :
  discoveryManager (this w) ≠ None →
  subscribe_throws (calls w) ("coap://" +:+ OC_MULTICAST_PREFIX) CT_DEFAULT = None →
  discover_throws
    (calls w ++ [SubscribePresence ("coap://" +:+ OC_MULTICAST_PREFIX) CT_DEFAULT
                                   (pPresenceCB (this w))])
    requestDiscovery_default_address
    (OC_MULTICAST_DISCOVERY_URI +:+ hosting_type_filter) CT_DEFAULT = Some e →
  startHosting w
  = (Throw e,
     mkWorld (set_presenceHandle (mkPresenceSubscriber true) (this w)) (heap w)
       (calls w
        ++ [SubscribePresence ("coap://" +:+ OC_MULTICAST_PREFIX) CT_DEFAULT
                              (pPresenceCB (this w));
            DiscoverResource requestDiscovery_default_address
                             (OC_MULTICAST_DISCOVERY_URI +:+ hosting_type_filter)
                             CT_DEFAULT (pDiscoveryCB (this w))])
       (cout w)).
Proof.
  intros Hdm Hsub Hdisc.
  unfold startHosting, requestMulticastPresence, requestMulticastDiscovery, requestDiscovery,
    try_catch, PresenceSubscriber_new, DiscoveryManager_discoverResource, hosting_type_filter
    in *.
  unfold_M. rewrite Hsub. simpl.
  destruct (discoveryManager (this w)); [|done]. simpl.
  rewrite Hdisc. simpl. rewrite <- app_assoc. by destruct e.
Qed.

Lemma startHosting_discovery_failure_witness :
  startHosting (env := failing_discovery_env (other_exception "bad_alloc")) initial_world
  = (Throw (other_exception "bad_alloc"),
     mkWorld (set_presenceHandle (mkPresenceSubscriber true) (this initial_world))
       (heap initial_world)
       (calls initial_world
        ++ [SubscribePresence "coap://224.0.1.187:5683" CT_DEFAULT
              (pPresenceCB (this initial_world));
            DiscoverResource "" ("/oic/res" +:+ hosting_type_filter)
              CT_DEFAULT (pDiscoveryCB (this initial_world))])
       (cout initial_world)).
Proof.
  apply (startHosting_discovery_failure
           (env := failing_discovery_env (other_exception "bad_alloc"))
           initial_world (other_exception "bad_alloc")).
  - simpl. discriminate.
  - reflexivity.
  - reflexivity.
Defined.

(** X15. [stopHosting()] on a coordinator without an active
    subscription returns normally and changes nothing at all: no
    unsubscribe call is issued, whatever the registry holds. *)
Theorem stopHosting_unsubscribed {env : Environment} (w : World) :
  isSubscribing (presenceHandle (this w)) = false →
  stopHosting w = (Normal tt, w).
Proof.
  intros Hsub. unfold stopHosting. unfold_M. rewrite Hsub.
  by rewrite for_each_skip.
Qed.

Lemma stopHosting_unsubscribed_witness :
  stopHosting (env := failing_unsubscribe_env (PlatformException 255))
              (run_discoveries [light_hosting; fan_hosting] initial_world)
  = (Normal tt, run_discoveries [light_hosting; fan_hosting] initial_world).
Proof.
  apply (stopHosting_unsubscribed (env := failing_unsubscribe_env (PlatformException 255))
           (run_discoveries [light_hosting; fan_hosting] initial_world)).
  reflexivity.
Defined.

(** X16. [stopHosting()] with an active subscription, when the
    unsubscription does not throw: it returns normally having issued
    exactly one unsubscribe call, the handle is Unsubscribed, everything
    else is as before, and a second [stopHosting()] changes nothing. *)
Theorem stopHosting_subscribed {env : Environment} (w : World) :
  isSubscribing (presenceHandle (this w)) = true →
  unsubscribe_throws (calls w) = None →
  stopHosting w
  = (Normal tt,
     mkWorld (set_presenceHandle (mkPresenceSubscriber false) (this w)) (heap w)
             (calls w ++ [UnsubscribePresence]) (cout w))
  ∧ stopHosting (stopHosting w).2 = (Normal tt, (stopHosting w).2).
Proof.
  intros Hsub Hthrow.
  assert (Hstop : stopHosting w
    = (Normal tt,
       mkWorld (set_presenceHandle (mkPresenceSubscriber false) (this w)) (heap w)
               (calls w ++ [UnsubscribePresence]) (cout w))).
  { unfold stopHosting, PresenceSubscriber_unsubscribe. unfold_M.
    rewrite Hsub, Hthrow. simpl. by rewrite for_each_skip. }
  split; [exact Hstop |].
  rewrite Hstop. unfold stopHosting. unfold_M. simpl.
  by rewrite for_each_skip.
Qed.

Lemma stopHosting_subscribed_witness :
  stopHosting (env := quiet_env) subscribed_world
  = (Normal tt,
     mkWorld (set_presenceHandle (mkPresenceSubscriber false) (this subscribed_world))
             (heap subscribed_world)
             (calls subscribed_world ++ [UnsubscribePresence]) (cout subscribed_world))
  ∧ stopHosting (env := quiet_env) (stopHosting (env := quiet_env) subscribed_world).2
    = (Normal tt, (stopHosting (env := quiet_env) subscribed_world).2).
Proof.
  apply (stopHosting_subscribed (env := quiet_env) subscribed_world); reflexivity.
Defined.

(** X17. When the unsubscription throws, [stopHosting()] throws that
    exception; the unsubscribe call was issued, and the coordinator
    object is as before, its handle still Subscribed. *)
Theorem stopHosting_unsubscribe_failure {env : Environment} (w : World) (e : exception) :
  isSubscribing (presenceHandle (this w)) = true →
  unsubscribe_throws (calls w) = Some e →
  stopHosting w
  = (Throw e, mkWorld (this w) (heap w) (calls w ++ [UnsubscribePresence]) (cout w)).
Proof.
  intros Hsub Hthrow.
  unfold stopHosting, PresenceSubscriber_unsubscribe. unfold_M.
  by rewrite Hsub, Hthrow.
Qed.

Lemma stopHosting_unsubscribe_failure_witness :
  stopHosting (env := failing_unsubscribe_env (PlatformException 255)) subscribed_world
  = (Throw (PlatformException 255),
     mkWorld (this subscribed_world) (heap subscribed_world)
             (calls subscribed_world ++ [UnsubscribePresence]) (cout subscribed_world)).
Proof.
  apply (stopHosting_unsubscribe_failure
           (env := failing_unsubscribe_env (PlatformException 255))
           subscribed_world (PlatformException 255)); reflexivity.
Defined.

(** X18. Start, then stop: when no collaborator throws, the two entry
    points in sequence return normally, issue exactly the subscription,
    the discovery sweep and the unsubscription, in that order, and leave
    the handle Unsubscribed and the registry and hosting objects as they
    were. *)
Theorem startHosting_then_stopHosting {env : Environment} (w : World) :
  discoveryManager (this w) ≠ None →
  subscribe_throws (calls w) ("coap://" +:+ OC_MULTICAST_PREFIX) CT_DEFAULT = None →
  discover_throws
    (calls w ++ [SubscribePresence ("coap://" +:+ OC_MULTICAST_PREFIX) CT_DEFAULT
                                   (pPresenceCB (this w))])
    requestDiscovery_default_address
    (OC_MULTICAST_DISCOVERY_URI +:+ hosting_type_filter) CT_DEFAULT = None →
  unsubscribe_throws
    (calls w
     ++ [SubscribePresence ("coap://" +:+ OC_MULTICAST_PREFIX) CT_DEFAULT
                           (pPresenceCB (this w));
         DiscoverResource requestDiscovery_default_address
                          (OC_MULTICAST_DISCOVERY_URI +:+ hosting_type_filter)
                          CT_DEFAULT (pDiscoveryCB (this w))]) = None →
  (startHosting ;; stopHosting) w
  = (Normal tt,
     mkWorld (set_presenceHandle (mkPresenceSubscriber false) (this w)) (heap w)
       (calls w
        ++ [SubscribePresence ("coap://" +:+ OC_MULTICAST_PREFIX) CT_DEFAULT
                              (pPresenceCB (this w));
            DiscoverResource requestDiscovery_default_address
                             (OC_MULTICAST_DISCOVERY_URI +:+ hosting_type_filter)
                             CT_DEFAULT (pDiscoveryCB (this w));
            UnsubscribePresence])
       (cout w)).
Proof.
  intros Hdm Hsub Hdisc Hunsub.
  unfold startHosting, stopHosting, requestMulticastPresence, requestMulticastDiscovery,
    requestDiscovery, try_catch, PresenceSubscriber_new, PresenceSubscriber_unsubscribe,
    DiscoveryManager_discoverResource, hosting_type_filter in *.
  unfold_M. rewrite Hsub. simpl.
  destruct (discoveryManager (this w)); [|done]. simpl.
  rewrite Hdisc. simpl. rewrite <- !app_assoc in *. simpl in *.
  rewrite Hunsub. simpl. by rewrite for_each_skip.
Qed.

Lemma startHosting_then_stopHosting_witness :
  (startHosting (env := quiet_env) ;; stopHosting (env := quiet_env))
    (run_discoveries [light_hosting] initial_world)
  = (Normal tt,
     mkWorld (set_presenceHandle (mkPresenceSubscriber false)
                (this (run_discoveries [light_hosting] initial_world)))
       (heap (run_discoveries [light_hosting] initial_world))
       (calls (run_discoveries [light_hosting] initial_world)
        ++ [SubscribePresence "coap://224.0.1.187:5683" CT_DEFAULT
              (pPresenceCB (this (run_discoveries [light_hosting] initial_world)));
            DiscoverResource "" ("/oic/res" +:+ hosting_type_filter) CT_DEFAULT
              (pDiscoveryCB (this (run_discoveries [light_hosting] initial_world)));
            UnsubscribePresence])
       (cout (run_discoveries [light_hosting] initial_world))).
Proof.
  apply (startHosting_then_stopHosting (env := quiet_env)
           (run_discoveries [light_hosting] initial_world)).
  - vm_compute. discriminate.
  - reflexivity.
  - reflexivity.
  - reflexivity.
Defined.

(** ** The lookup under the invariant *)

(** X19. In a registry that satisfies the invariant the lookup is
    exact: it returns normally without changing the state; it returns
    [nullptr] only if no entry wraps a descriptor with the candidate's
    address and URI; and an entry it returns is in the registry, wraps
    such a descriptor, and is the only entry that does. *)
Theorem findRemoteResource_exact (w : World) (c : RemoteObject) :
  registry_inv w →
  ∃ res : HostingObjectPtr,
    findRemoteResource (Some c) w = (Normal res, w)
    ∧ (res = None →
       ∀ it r, it ∈ registry w → entry_descriptor w it = Some r →
               ¬ (getAddress r = getAddress c ∧ getUri r = getUri c))
    ∧ (∀ p, res = Some p →
         Some p ∈ registry w
         ∧ (∃ r, entry_descriptor w (Some p) = Some r
                 ∧ getAddress r = getAddress c ∧ getUri r = getUri c)
         ∧ ∀ it r, it ∈ registry w → entry_descriptor w it = Some r →
                   getAddress r = getAddress c → getUri r = getUri c → it = Some p).
Proof.
  intros Hinv.
  pose proof (registry_inv_live w Hinv) as Hlive.
  destruct (findRemoteResource_spec w c Hlive) as (res & Hfind & Hres).
  exists res. split; [done |]. split.
  - intros ->. destruct Hres as [[_ Hnone]|[Hin Hm]].
    + intros it r Hin Hr Hsame. specialize (Hnone it Hin).
      unfold entry_matches in Hnone. rewrite Hr in Hnone.
      apply same_key_true in Hsame. congruence.
    + discriminate Hm.
  - intros p ->. destruct Hres as [[Hnil _]|[Hin Hm]]; [done |].
    split; [done |].
    unfold entry_matches in Hm.
    destruct (entry_descriptor w (Some p)) as [rp|] eqn:Hrp; [|done].
    apply same_key_true in Hm.
    split; [by exists rp |].
    intros it r Hin' Hr Ha Hu.
    apply list_elem_of_lookup_1 in Hin as [i Hi].
    apply list_elem_of_lookup_1 in Hin' as [j Hj].
    destruct (decide (i = j)) as [->|Hij]; [congruence |].
    destruct (registry_inv_entries w i j (Some p) it Hinv Hij Hi Hj)
      as (r1 & r2 & Hr1 & Hr2 & Hne).
    exfalso. apply Hne. destruct Hm as [Hpa Hpu]. congruence.
Qed.

Lemma findRemoteResource_exact_witness :
  ∃ res : HostingObjectPtr,
    findRemoteResource (Some fan_hosting)
      (run_discoveries [light_hosting; fan_hosting] initial_world)
    = (Normal res, run_discoveries [light_hosting; fan_hosting] initial_world)
    ∧ (res = None →
       ∀ it r, it ∈ registry (run_discoveries [light_hosting; fan_hosting] initial_world) →
               entry_descriptor (run_discoveries [light_hosting; fan_hosting] initial_world) it
               = Some r →
               ¬ (getAddress r = getAddress fan_hosting ∧ getUri r = getUri fan_hosting))
    ∧ (∀ p, res = Some p →
         Some p ∈ registry (run_discoveries [light_hosting; fan_hosting] initial_world)
         ∧ (∃ r, entry_descriptor (run_discoveries [light_hosting; fan_hosting] initial_world)
                                  (Some p) = Some r
                 ∧ getAddress r = getAddress fan_hosting ∧ getUri r = getUri fan_hosting)
         ∧ ∀ it r,
             it ∈ registry (run_discoveries [light_hosting; fan_hosting] initial_world) →
             entry_descriptor (run_discoveries [light_hosting; fan_hosting] initial_world) it
             = Some r →
             getAddress r = getAddress fan_hosting → getUri r = getUri fan_hosting →
             it = Some p).
Proof.
  apply (findRemoteResource_exact
           (run_discoveries [light_hosting; fan_hosting] initial_world) fan_hosting).
  apply run_discoveries_inv, registry_inv_empty. reflexivity.
Defined.

(** ** No undefined behaviour *)

Section NoUndefined.
Context {env : Environment}.

Lemma handle_discoveryManager (e : Event) (w : World) :
  registry_live w →
  discoveryManager (this (handle e w).2) = discoveryManager (this w).
Proof.
  intros Hlive. destruct e as [| |ret seq address|c|p]; simpl.
  - unfold startHosting, requestMulticastPresence, requestMulticastDiscovery, requestDiscovery,
      try_catch, PresenceSubscriber_new, DiscoveryManager_discoverResource.
    unfold_M.
    destruct (subscribe_throws _ _ _) as [e|]; simpl; [by destruct e |].
    destruct (discoveryManager (this w)) eqn:Hdm; simpl; [|done].
    destruct (discover_throws _ _ _ _) as [e|]; simpl; [by destruct e | done].
  - unfold stopHosting, PresenceSubscriber_unsubscribe. unfold_M.
    destruct (isSubscribing _); simpl.
    + destruct (unsubscribe_throws _); simpl; [done |]. by rewrite for_each_skip.
    + by rewrite for_each_skip.
  - assert (Hreq : discoveryManager (this (requestDiscovery address w).2)
                   = discoveryManager (this w)).
    { unfold requestDiscovery, DiscoveryManager_discoverResource. unfold_M.
      destruct (discoveryManager (this w)) eqn:Hdm; simpl; [|done].
      by destruct (discover_throws _ _ _ _). }
    destruct ret; simpl; try done; exact Hreq.
  - by destruct (discoverHandler_cases w c Hlive) as [->|[->|[_ ->]]].
  - rewrite destroyedHostingObject_unfold. by destruct (std_find _ _).
Qed.

Lemma run_discoveryManager (es : list Event) (w : World) :
  registry_inv w →
  discoveryManager (this (run es w)) = discoveryManager (this w).
Proof.
  revert w. induction es as [|e es IH]; intros w Hinv; [done |].
  change (run (e :: es) w) with (run es (handle e w).2).
  rewrite IH by (by apply handle_inv).
  by apply handle_discoveryManager, registry_inv_live.
Qed.

(** X22. No undefined behaviour is reachable: in every state the
    coordinator reaches from its initial state, whatever the environment
    and the events, each entry point and each callback either returns
    normally or throws; no null pointer is dereferenced. *)
Theorem reachable_states_defined (es : list Event) (e : Event) :
  (handle e (run es initial_world)).1 ≠ Undefined.
Proof.
  pose proof (run_inv es initial_world initial_world_inv) as Hinv.
  pose proof (run_discoveryManager es initial_world initial_world_inv) as Hdm.
  simpl in Hdm.
  set (w := run es initial_world) in *.
  assert (Hreq : ∀ address, (requestDiscovery address w).1 ≠ Undefined).
  { intros address. unfold requestDiscovery, DiscoveryManager_discoverResource. unfold_M.
    rewrite Hdm. simpl. by destruct (discover_throws _ _ _ _). }
  destruct e as [| |ret seq address|c|p]; simpl.
  - unfold startHosting, requestMulticastPresence, requestMulticastDiscovery, requestDiscovery,
      try_catch, PresenceSubscriber_new, DiscoveryManager_discoverResource.
    unfold_M.
    destruct (subscribe_throws _ _ _) as [e|]; simpl; [by destruct e |].
    rewrite Hdm. simpl.
    destruct (discover_throws _ _ _ _) as [e|]; simpl; [by destruct e | done].
  - unfold stopHosting, PresenceSubscriber_unsubscribe. unfold_M.
    destruct (isSubscribing _); simpl.
    + destruct (unsubscribe_throws _); simpl; [done |]. by rewrite for_each_skip.
    + by rewrite for_each_skip.
  - destruct ret; simpl; try done; apply Hreq.
  - by destruct (discoverHandler_cases w c (registry_inv_live w Hinv)) as [->|[->|[_ ->]]].
  - rewrite destroyedHostingObject_unfold. by destruct (std_find _ _).
Qed.

End NoUndefined.

Lemma discoverHandler_rejects_witness :
  discoverHandler (Some (mkRemoteObject "node-5683" "/a/light/HOSTING" 4))
                  (run_discoveries [light_hosting] initial_world)
  = (Normal tt, run_discoveries [light_hosting] initial_world).
Proof.
  apply (discoverHandler_rejects (run_discoveries [light_hosting] initial_world)
           (mkRemoteObject "node-5683" "/a/light/HOSTING" 4)).
  - vm_compute. split; [discriminate | reflexivity].
  - intros [p Hp]. simpl in Hp.
    assert (Hlen : String.length p = 8%nat).
    { apply (f_equal String.length) in Hp.
      rewrite string_length_append in Hp. simpl in Hp. lia. }
    do 9 (destruct p as [|? p]; try discriminate Hlen).
    discriminate Hp.
Defined.

(** ** Stopping is no latch *)

(** X23. [stopHosting()] sets no flag the handler reads: a discovery
    callback that arrives after [stopHosting()] admits its candidate just
    as it would have before. *)
Theorem discoverHandler_after_stopHosting {env : Environment} (w : World) (c : RemoteObject) :
  registry_live w →
  fits_size_t (getUri c) →
  StdString.ends_with (getUri c) HOSTING_TAG →
  (∀ it r, it ∈ registry w → entry_descriptor w it = Some r →
           ¬ (getAddress r = getAddress c ∧ getUri r = getUri c)) →
  ∃ p : loc,
    heap w !! p = None
    ∧ (discoverHandler (Some c) (stopHosting w).2).1 = Normal tt
    ∧ registry (discoverHandler (Some c) (stopHosting w).2).2 = registry w ++ [Some p]
    ∧ entry_descriptor (discoverHandler (Some c) (stopHosting w).2).2 (Some p) = Some c.
Proof.
  intros Hlive Hfit Hends Hnone.
  destruct (stopHosting_frame w) as [Hreg Hheap].
  set (w' := (stopHosting w).2) in *.
  assert (Hobj : ∀ it, entry_object w' it = entry_object w it).
  { intros it. unfold entry_object. by rewrite Hheap. }
  assert (Hlive' : registry_live w').
  { intros it Hin. rewrite Hreg in Hin. rewrite Hobj. by apply Hlive. }
  assert (Hadm : discoverHandler (Some c) w' = (Normal tt, admitted c w')).
  { apply discoverHandler_admits; [done | by apply tagged_uri_passes |].
    intros it Hin. apply entry_matches_false. intros r Hr.
    rewrite Hreg in Hin. apply (Hnone it); [done |].
    unfold entry_descriptor in *. by rewrite <- Hobj. }
  exists (fresh (dom (heap w'))). rewrite Hadm. simpl.
  split; [rewrite <- Hheap; apply fresh_heap |]. split; [done |].
  split; [|apply admitted_new_entry].
  change (registry (admitted c w')) with (registry w' ++ [Some (fresh (dom (heap w')))]).
  by rewrite Hreg.
Qed.

Lemma discoverHandler_after_stopHosting_witness :
  ∃ p : loc,
    heap subscribed_world !! p = None
    ∧ (discoverHandler (Some light_hosting)
         (stopHosting (env := quiet_env) subscribed_world).2).1 = Normal tt
    ∧ registry (discoverHandler (Some light_hosting)
                  (stopHosting (env := quiet_env) subscribed_world).2).2
      = registry subscribed_world ++ [Some p]
    ∧ entry_descriptor (discoverHandler (Some light_hosting)
                          (stopHosting (env := quiet_env) subscribed_world).2).2 (Some p)
      = Some light_hosting.
Proof.
  apply (discoverHandler_after_stopHosting (env := quiet_env) subscribed_world light_hosting).
  - intros it Hin. vm_compute in Hin. by apply elem_of_nil in Hin.
  - vm_compute. reflexivity.
  - exists "/a/light". reflexivity.
  - intros it r Hin. vm_compute in Hin. by apply elem_of_nil in Hin.
Defined.

(** ** The interleaved accessor, continued *)

Lemma reachable_config_inv (n : nat) (cfg : Config) :
  rtc step (mkConfig process_start (replicate n at_check)) cfg → config_inv cfg.
Proof.
  revert cfg. apply (rtc_ind_r (λ c, config_inv c)); [apply start_inv |].
  intros y z _ Hyz IH. by apply (step_inv y).
Qed.

Lemma getInstance_interleaved_witness :
  (length (instances (shared
     (mkConfig (mkProcess (Some 0%nat) false
                          [initializeResourceHosting ResourceHosting_new] [0%nat])
               [returned (Some 0%nat); returned (Some 0%nat)]))) ≤ 1)%nat
  ∧ (length (initialized (shared
       (mkConfig (mkProcess (Some 0%nat) false
                            [initializeResourceHosting ResourceHosting_new] [0%nat])
                 [returned (Some 0%nat); returned (Some 0%nat)]))) ≤ 1)%nat
  ∧ ∀ r, returned r ∈ threads
           (mkConfig (mkProcess (Some 0%nat) false
                                [initializeResourceHosting ResourceHosting_new] [0%nat])
                     [returned (Some 0%nat); returned (Some 0%nat)]) →
         r = Some 0%nat
         ∧ length (instances (shared
             (mkConfig (mkProcess (Some 0%nat) false
                                  [initializeResourceHosting ResourceHosting_new] [0%nat])
                       [returned (Some 0%nat); returned (Some 0%nat)]))) = 1%nat.
Proof.
  apply (getInstance_interleaved 2).
  apply (run_schedule_rtc [0; 1; 0; 0; 0; 0; 0; 1; 1; 1; 0; 1]%nat).
  reflexivity.
Defined.

(** X21. The interleaved accessor cannot get stuck: in every
    configuration the callers reach, as long as one of them has not
    returned, some caller can take a step. *)
Theorem getInstance_no_deadlock (n : nat) (cfg : Config) (i : nat) (c : Pc) :
  rtc step (mkConfig process_start (replicate n at_check)) cfg →
  threads cfg !! i = Some c →
  (∀ r, c ≠ returned r) →
  ∃ cfg', step cfg cfg'.
Proof.
  intros Hrtc Hi Hc.
  destruct (reachable_config_inv n cfg Hrtc) as (Hh & Hok & Hst).
  destruct cfg as [pr ts]. simpl in *.
  assert (Hgo : ∀ j d pr' d', ts !! j = Some d → thread_step pr d = Some (pr', d') →
                               ∃ cfg', step (mkConfig pr ts) cfg').
  { intros j d pr' d' Hj Hd. eexists. by apply (step_thread pr pr' ts j d d'). }
  destruct (s_mutexForCreation pr) eqn:Hm.
  - (* the holder of the mutex can move *)
    unfold holders in Hh.
    destruct (filter (λ c, in_critical_section c = true) ts) as [|d l] eqn:Hf; [done |].
    assert (Hd : d ∈ filter (λ c, in_critical_section c = true) ts)
      by (rewrite Hf; by left).
    apply list_elem_of_filter in Hd as [Hcs Hd].
    apply list_elem_of_lookup_1 in Hd as [j Hj].
    pose proof (Hok j d Hj) as Hdj.
    destruct d; simpl in Hcs; try done.
    + by apply (Hgo j at_recheck _ _ Hj eq_refl).
    + by apply (Hgo j at_new _ _ Hj eq_refl).
    + destruct Hdj as [Hs _]. apply (Hgo j at_initialize
        (mkProcess (s_instance pr) (s_mutexForCreation pr)
                   (alter initializeResourceHosting 0%nat (instances pr))
                   (initialized pr ++ [0%nat])) at_unlock Hj).
      simpl. unfold initialize. by rewrite Hs.
    + by apply (Hgo j at_unlock _ _ Hj eq_refl).
  - (* the mutex is free: the caller that has not returned can move *)
    assert (Hcs : in_critical_section c = false).
    { destruct (in_critical_section c) eqn:Hcs; [|done].
      assert (Hd : c ∈ filter (λ c, in_critical_section c = true) ts).
      { apply list_elem_of_filter. split; [done |]. by eapply list_elem_of_lookup_2. }
      unfold holders in Hh. destruct (filter _ ts); [by apply elem_of_nil in Hd | done]. }
    destruct c; simpl in Hcs; try done.
    + by apply (Hgo i at_check _ _ Hi eq_refl).
    + apply (Hgo i at_lock (mkProcess (s_instance pr) true (instances pr) (initialized pr))
               at_recheck Hi).
      simpl. unfold mutex_lock. by rewrite Hm.
    + by apply (Hgo i at_return _ _ Hi eq_refl).
    + by destruct (Hc r).
Qed.

Lemma getInstance_no_deadlock_witness :
  ∃ cfg', step (mkConfig (mkProcess (Some 0%nat) true [ResourceHosting_new] [])
                         [at_initialize; returned (Some 0%nat)]) cfg'.
Proof.
  apply (getInstance_no_deadlock 2
           (mkConfig (mkProcess (Some 0%nat) true [ResourceHosting_new] [])
                     [at_initialize; returned (Some 0%nat)])
           0 at_initialize).
  - apply (run_schedule_rtc [0; 0; 0; 0; 1; 1]%nat). reflexivity.
  - reflexivity.
  - intros r. discriminate.
Defined.
